(** * stock-report: the incremental aggregation-and-merge pipeline of gemini.py

    A shallow embedding of [gemini.py]: the conversation reader, the date
    segmenter, the summarizer's failure handling, the document merger and the
    index builder, with the properties of the specification stated over it.

    Python [str] values are lists of Unicode code points.  The Unicode
    character database ([\d], [\s], [str.strip], [int]), the HTML library
    (BeautifulSoup) and the remote summarization service are not part of the
    repository; they enter as parameters. *)

From Stdlib Require Import String Ascii.
From stdpp Require Import gmap list sorting.

Local Open Scope N_scope.

(** ** Python strings *)

Abbreviation str := (list N).

(** An ASCII literal as a Python string. *)
Fixpoint u (s : string) : str :=
  match s with
  | EmptyString => []
  | String a s' => N_of_ascii a :: u s'
  end.

(** The part of the Unicode character database the program depends on:
    [decimal c] is the value of a decimal digit (category Nd), the digits
    accepted by [\d] and by [int]; [is_space c] is [str.isspace], the
    characters matched by [\s] and removed by [str.strip]. *)
Record unicode_db := {
  decimal : N -> option N;
  is_space : N -> bool;
  decimal_lt : forall c v, decimal c = Some v -> v < 10;
  decimal_ascii : forall c, c < 128 ->
    decimal c = if (48 <=? c) && (c <=? 57) then Some (c - 48) else None;
  is_space_ascii : forall c, c < 128 ->
    is_space c = ((9 <=? c) && (c <=? 13)) || ((28 <=? c) && (c <=? 32))
}.

Definition ascii_decimal (c : N) : option N :=
  if (48 <=? c) && (c <=? 57) then Some (c - 48) else None.

Definition ascii_space (c : N) : bool :=
  ((9 <=? c) && (c <=? 13)) || ((28 <=? c) && (c <=? 32)).

Lemma ascii_decimal_lt c v : ascii_decimal c = Some v -> v < 10.
Proof.
  unfold ascii_decimal.
  destruct (48 <=? c) eqn:H1; destruct (c <=? 57) eqn:H2; simpl; try discriminate.
  intros [= <-]. apply N.leb_le in H1, H2. lia.
Qed.

(** The database restricted to ASCII: no digit and no white space beyond
    U+007F. *)
Definition ascii_db : unicode_db :=
  {| decimal := ascii_decimal;
     is_space := ascii_space;
     decimal_lt := ascii_decimal_lt;
     decimal_ascii := fun c _ => eq_refl;
     is_space_ascii := fun c _ => eq_refl |}.

Definition str_eqb (a b : str) : bool := bool_decide (a = b).

(** [a < b] on Python strings: lexicographic on code points. *)
Fixpoint str_ltb (a b : str) : bool :=
  match a, b with
  | _, [] => false
  | [], _ :: _ => true
  | x :: a', y :: b' => (x <? y) || ((x =? y) && str_ltb a' b')
  end.

Definition str_leb (a b : str) : bool := negb (str_ltb b a).

Fixpoint startswith (s p : str) : bool :=
  match p, s with
  | [], _ => true
  | _ :: _, [] => false
  | y :: p', x :: s' => (x =? y) && startswith s' p'
  end.

Definition endswith (s p : str) : bool := startswith (rev s) (rev p).

(** [sep.join(l)] *)
Fixpoint join (sep : str) (l : list str) : str :=
  match l with
  | [] => []
  | [x] => x
  | x :: l' => x ++ sep ++ join sep l'
  end.

Section Unicode.
Context (U : unicode_db).

Fixpoint lstrip (s : str) : str :=
  match s with
  | c :: s' => if is_space U c then lstrip s' else s
  | [] => []
  end.

(** [s.strip()] *)
Definition strip (s : str) : str := rev (lstrip (rev (lstrip s))).

(** [int(s)] on a string of decimal digits; [None] stands for ValueError. *)
Fixpoint int_acc (acc : N) (s : str) : option N :=
  match s with
  | [] => Some acc
  | c :: s' =>
      match decimal U c with
      | Some v => int_acc (10 * acc + v) s'
      | None => None
      end
  end.

Definition int (s : str) : option N :=
  match s with
  | [] => None
  | _ => int_acc 0 s
  end.

End Unicode.

(** [str(n)] for a natural number. *)
Fixpoint dec_aux (fuel : nat) (n : N) (acc : str) : str :=
  match fuel with
  | O => acc
  | S f =>
      let acc' := (48 + n mod 10) :: acc in
      if n / 10 =? 0 then acc' else dec_aux f (n / 10) acc'
  end.

Definition dec (n : N) : str := dec_aux (S (N.to_nat (N.log2 n))) n [].

(** [f"{n:0wd}"] *)
Definition fmt0 (w : nat) (n : N) : str :=
  let d := dec n in replicate (w - length d) 48 ++ d.

(** ** Regular expressions

    A backtracking matcher for the fragment of Python's [re] syntax the
    program uses: literals, character classes, concatenation, optional
    items, greedy and lazy repetition of a class, capture groups. *)

Inductive cls :=
| Digit                    (* \d *)
| Space                    (* \s *)
| Dot                      (* .  : anything but a newline *)
| OneOf (l : list N).      (* [...] *)

Inductive re :=
| Eps
| Lit (c : N)
| Cls (p : cls)
| Seq (r1 r2 : re)
| Opt (r : re)                       (* r?  *)
| Star (greedy : bool) (p : cls)     (* p*  and  p*? *)
| Group (r : re).                    (* (r) *)

(** A literal string. *)
Fixpoint lits (s : str) : re :=
  match s with
  | [] => Eps
  | c :: s' => Seq (Lit c) (lits s')
  end.

Fixpoint seqs (l : list re) : re :=
  match l with
  | [] => Eps
  | r :: l' => Seq r (seqs l')
  end.

Section Regex.
Context (U : unicode_db).

Definition cls_mem (p : cls) (c : N) : bool :=
  match p with
  | Digit => bool_decide (is_Some (decimal U c))
  | Space => is_space U c
  | Dot => negb (c =? 10)
  | OneOf l => bool_decide (c ∈ l)
  end.

Section Matcher.
Context {A : Type}.

(** The continuation receives the captured groups, in the order in which
    they closed, and the rest of the input. *)
Definition kont := list str -> str -> option A.

Fixpoint star (greedy : bool) (p : cls) (k : kont) (caps : list str) (s : str)
  : option A :=
  match s with
  | c :: s' =>
      if cls_mem p c then
        if greedy then
          match star greedy p k caps s' with
          | Some x => Some x
          | None => k caps s
          end
        else
          match k caps s with
          | Some x => Some x
          | None => star greedy p k caps s'
          end
      else k caps s
  | [] => k caps s
  end.

Fixpoint rmatch (r : re) (k : kont) (caps : list str) (s : str) : option A :=
  match r with
  | Eps => k caps s
  | Lit c =>
      match s with
      | x :: s' => if x =? c then k caps s' else None
      | [] => None
      end
  | Cls p =>
      match s with
      | x :: s' => if cls_mem p x then k caps s' else None
      | [] => None
      end
  | Seq r1 r2 => rmatch r1 (rmatch r2 k) caps s
  | Opt r1 =>
      match rmatch r1 k caps s with
      | Some x => Some x
      | None => k caps s
      end
  | Star g p => star g p k caps s
  | Group r1 =>
      rmatch r1 (fun caps' s' =>
        k (caps' ++ [take (length s - length s') s]) s') caps s
  end.

End Matcher.

(** A match anchored at the start of [s]: the groups and the rest. *)
Definition match_here (r : re) (s : str) : option (list str * str) :=
  rmatch r (fun caps rest => Some (caps, rest)) [] s.

(** [re.search(r, s)]: the leftmost match. *)
Fixpoint search (r : re) (s : str) : option (list str * str) :=
  match match_here r s with
  | Some x => Some x
  | None =>
      match s with
      | [] => None
      | _ :: s' => search r s'
      end
  end.

(** [re.findall(r, s)] for a pattern with one group whose matches are not
    empty: the group of each successive match, left to right. *)
Fixpoint findall_fuel (fuel : nat) (r : re) (s : str) : list str :=
  match fuel with
  | O => []
  | S f =>
      match search r s with
      | Some (caps, rest) => default [] (head caps) :: findall_fuel f r rest
      | None => []
      end
  end.

Definition findall (r : re) (s : str) : list str :=
  findall_fuel (length s) r s.

End Regex.

(** ** The date extractor *)

(** [r"(20\d{2})[-/](\d{1,2})[-/](\d{1,2})"] *)
Definition date_sep : re := Cls (OneOf [45; 47]).
Definition digits_1_2 : re := Seq (Cls Digit) (Opt (Cls Digit)).
Definition date_re : re :=
  seqs [ Group (seqs [Lit 50; Lit 48; Cls Digit; Cls Digit]);
         date_sep; Group digits_1_2; date_sep; Group digits_1_2 ].

(** [f"{y:04d}-{m:02d}-{d:02d}"] *)
Definition date_key (y m d : N) : str :=
  fmt0 4 y ++ [45] ++ fmt0 2 m ++ [45] ++ fmt0 2 d.

Section Dates.
Context (U : unicode_db).

(** [extract_date_from_text].  [int] cannot raise on a group matched by
    [\d] (lemmas [int_year] and [one_or_two_int] below), so the ValueError
    branch is folded into [None]. *)
Definition extract_date_from_text (text : str) : option str :=
  match search U date_re text with
  | Some ([y; m; d], _) =>
      match int U y, int U m, int U d with
      | Some y', Some m', Some d' => Some (date_key y' m' d')
      | _, _, _ => None
      end
  | _ => None
  end.

End Dates.


(** ** Literals

    [utf8] decodes a source literal, written in UTF-8, into code points. *)

Fixpoint utf8_dec (l : list N) : str :=
  match l with
  | [] => []
  | b :: l1 =>
      if b <? 128 then b :: utf8_dec l1
      else if b <? 224 then
        match l1 with
        | c1 :: l2 => ((b - 192) * 64 + (c1 - 128)) :: utf8_dec l2
        | _ => []
        end
      else if b <? 240 then
        match l1 with
        | c1 :: c2 :: l3 =>
            ((b - 224) * 4096 + (c1 - 128) * 64 + (c2 - 128)) :: utf8_dec l3
        | _ => []
        end
      else
        match l1 with
        | c1 :: c2 :: c3 :: l4 =>
            ((b - 240) * 262144 + (c1 - 128) * 4096 + (c2 - 128) * 64 + (c3 - 128))
              :: utf8_dec l4
        | _ => []
        end
  end.

Definition utf8 (s : string) : str := utf8_dec (u s).

Definition INPUT_JSON : str := u "conversations.json".
Definition OUTPUT_DIR : str := u "output".
Definition FILTER_SUFFIX : str := Eval vm_compute in utf8 "_米国株".
Definition INDEX_HTML : str := u "index.html".

(** The summary written when the summarization call fails. *)
Definition SUMMARY_ERROR : str := Eval vm_compute in utf8 "要約エラー".

(** The placeholder of the index page. *)
Definition NOT_RECORDED : str := Eval vm_compute in utf8 "記載なし".

(** ** Exceptions *)

Inductive exn :=
| KeyError | IndexError | TypeError | AttributeError | ValueError
| UnicodeDecodeError | OtherError.

Inductive result (A : Type) :=
| Ok (a : A)
| Raise (e : exn).
Arguments Ok {A} a.
Arguments Raise {A} e.

Definition bind {A B} (m : result A) (f : A -> result B) : result B :=
  match m with
  | Ok a => f a
  | Raise e => Raise e
  end.

Declare Scope result_scope.
Delimit Scope result_scope with result.
Notation "'do' x <- m ; k" := (bind m (fun x => k))
  (at level 10, x pattern, m at level 100, k at level 200) : result_scope.
Local Open Scope result_scope.

(** ** JSON values, as [json.load] returns them

    An object is a [dict]: its bindings in insertion order, keys distinct.
    Numbers are integers here; a float behaves like one wherever the
    program can meet it (it is no string, no container, and falsy at zero). *)

#[warnings="-register-all"]
Inductive json :=
| JNull
| JBool (b : bool)
| JNum (n : Z)
| JStr (s : str)
| JArr (l : list json)
| JObj (kv : list (str * json)).

Fixpoint lookup_key (k : str) (kv : list (str * json)) : option json :=
  match kv with
  | [] => None
  | (k', v) :: kv' => if str_eqb k' k then Some v else lookup_key k kv'
  end.

(** Python truthiness: [if v:] *)
Definition truthy (v : json) : bool :=
  match v with
  | JNull => false
  | JBool b => b
  | JNum n => negb (n =? 0)%Z
  | JStr s => match s with [] => false | _ => true end
  | JArr l => match l with [] => false | _ => true end
  | JObj kv => match kv with [] => false | _ => true end
  end.

(** [v.get(k, dflt)]: only a dict has [get]. *)
Definition py_get (v : json) (k : str) (dflt : json) : result json :=
  match v with
  | JObj kv => Ok (default dflt (lookup_key k kv))
  | _ => Raise AttributeError
  end.

(** [v[k]] for a string key. *)
Definition py_item (v : json) (k : str) : result json :=
  match v with
  | JObj kv =>
      match lookup_key k kv with
      | Some x => Ok x
      | None => Raise KeyError
      end
  | _ => Raise TypeError
  end.

(** [v[0]] *)
Definition py_first (v : json) : result json :=
  match v with
  | JArr (x :: _) => Ok x
  | JArr [] => Raise IndexError
  | JStr (c :: _) => Ok (JStr [c])
  | JStr [] => Raise IndexError
  | JObj _ => Raise KeyError
  | _ => Raise TypeError
  end.

(** [v == s] for a string [s] *)
Definition is_str (v : json) (s : str) : bool :=
  match v with
  | JStr s' => str_eqb s' s
  | _ => false
  end.

(** A value used where a [str] is required. *)
Definition as_str (v : json) (e : exn) : result str :=
  match v with
  | JStr s => Ok s
  | _ => Raise e
  end.

(** ** Conversation Reader ([main], the loop over [mapping]) *)

Record message := Message { role : json; text : json }.

(** One node of the mapping: [None] when the node contributes no message. *)
Definition read_node (node : json) : result (option message) :=
  do msg <- py_get node (u "message") JNull;
  if negb (truthy msg) then Ok None
  else
    do author <- py_item msg (u "author");
    do role <- py_item author (u "role");
    do content <- py_get msg (u "content") (JObj []);
    do parts <- py_get content (u "parts") JNull;
    if truthy parts then
      do text <- py_first parts;
      do text <- match text with
                 | JObj _ => py_get text (u "value") (JStr [])
                 | _ => Ok text
                 end;
      Ok (Some (Message role text))
    else Ok None.

Fixpoint read_nodes (nodes : list json) : result (list message) :=
  match nodes with
  | [] => Ok []
  | node :: nodes' =>
      do m <- read_node node;
      do ms <- read_nodes nodes';
      Ok (match m with Some x => x :: ms | None => ms end)
  end.

(** [d.values()] *)
Definition py_values (v : json) : result (list json) :=
  match v with
  | JObj kv => Ok (snd <$> kv)
  | _ => Raise AttributeError
  end.

(** [thread.get("mapping", {}).values()], read in enumeration order. *)
Definition read_messages (thread : json) : result (list message) :=
  do mapping <- py_get thread (u "mapping") (JObj []);
  do nodes <- py_values mapping;
  read_nodes nodes.

(** ** Date Segmenter ([main], the loop over [messages]) *)

(** [date_to_group]: a [defaultdict(list)], keys in insertion order. *)
Abbreviation groups := (list (str * list message)).

(** [date_to_group[d].append(m)] *)
Fixpoint group_append (d : str) (m : message) (g : groups) : groups :=
  match g with
  | [] => [(d, [m])]
  | (d', ms) :: g' =>
      if str_eqb d' d then (d', ms ++ [m]) :: g'
      else (d', ms) :: group_append d m g'
  end.

(** [if x:] for [x] a string or [None] *)
Definition opt_truthy (x : option str) : bool :=
  match x with
  | Some (_ :: _) => true
  | _ => false
  end.

Section Segmenter.
Context (U : unicode_db).

(** The cursor after one message. *)
Definition next_date (current_date : option str) (msg : message)
  : result (option str) :=
  if is_str (role msg) (u "assistant") then
    do t <- as_str (text msg) TypeError;
    let extracted := extract_date_from_text U t in
    Ok (if opt_truthy extracted then extracted else current_date)
  else Ok current_date.

(** [if current_date: date_to_group[current_date].append(msg)] *)
Definition bucket_add (current_date : option str) (msg : message) (g : groups)
  : groups :=
  match current_date with
  | Some d => if opt_truthy current_date then group_append d msg g else g
  | None => g
  end.

Fixpoint segment_from (current_date : option str) (g : groups)
    (msgs : list message) : result groups :=
  match msgs with
  | [] => Ok g
  | msg :: msgs' =>
      do cur <- next_date current_date msg;
      segment_from cur (bucket_add cur msg g) msgs'
  end.

Definition segment (msgs : list message) : result groups :=
  segment_from None [] msgs.

End Segmenter.

(** [sorted(date_to_group.items())]: the keys are distinct, so the order
    is the order of the keys. *)
Definition key_le (a b : str * list message) : Prop := str_leb a.1 b.1 = true.

#[global] Instance key_le_dec : RelDecision key_le.
Proof. intros a b. unfold key_le. apply _. Defined.

Definition sorted_items (g : groups) : groups := merge_sort key_le g.

(** ** Segment Summarizer *)

Definition PROMPT_HEAD : str := Eval vm_compute in utf8 "
以下は株式銘柄に関する1日分の分析会話の記録です。
この内容をもとに、以下のフォーマットで要点を箇条書きで整理してください。

---

分析結果の要約（300字程度）：

短期的目線の分析（150字程度）：

中期的目線の分析（150字程度）：

長期的目線の分析（150字程度）：

最新の状況（40字程度）：

いつ買うべきか（40字程度）：

---

【会話記録】
".

Definition prompt (text : str) : str := PROMPT_HEAD ++ text ++ [10].

(** The transcript of one date: ["\n".join(...)].  Adding a prefix to a
    text that is no string raises TypeError. *)
Fixpoint transcript_lines (msgs : list message) : result (list str) :=
  match msgs with
  | [] => Ok []
  | msg :: msgs' =>
      do t <- as_str (text msg) TypeError;
      do ls <- transcript_lines msgs';
      Ok (((if is_str (role msg) (u "user") then u "Q: " else u "A: ") ++ t) :: ls)
  end.

Definition transcript (msgs : list message) : result str :=
  do ls <- transcript_lines msgs;
  Ok (join [10] ls).

Section Summarizer.
Context (U : unicode_db).

(** The remote call: [requests.post(...)] followed by [response.json()],
    as a function of the prompt; [Raise] stands for any exception of the
    network layer, a timeout, or a body that is no JSON. *)
Context (post : str -> result json).

(** [result["candidates"][0]["content"]["parts"][0]["text"].strip()] *)
Definition candidate_text (response : json) : result str :=
  do c <- py_item response (u "candidates");
  do c0 <- py_first c;
  do ct <- py_item c0 (u "content");
  do ps <- py_item ct (u "parts");
  do p0 <- py_first ps;
  do t <- py_item p0 (u "text");
  do s <- as_str t AttributeError;
  Ok (strip U s).

Definition summarize_with_gemini (text : str) : str :=
  match (do response <- post (prompt text); candidate_text response) with
  | Ok s => s
  | Raise _ => SUMMARY_ERROR
  end.

End Summarizer.

(** [f"<h2>{date}</h2>\n<pre>{summary}</pre>"] *)
Definition section_html (date summary : str) : str :=
  u "<h2>" ++ date ++ u "</h2>" ++ [10] ++ u "<pre>" ++ summary ++ u "</pre>".

(** ** Persisted documents *)

(** [HTML_TEMPLATE.format(title=title, content=content)] *)
Definition HTML_TEMPLATE (title content : str) : str :=
  utf8 "
<html>
<head>
  <meta charset='utf-8'>
  <title>" ++ title ++ utf8 "</title>
  <style>
    body {
      font-family: sans-serif;
      margin: 40px;
    }
    pre {
      white-space: pre-wrap;
      word-break: break-word;
      background-color: #f5f5f5;
      padding: 1em;
      border-radius: 6px;
    }
    h2 {
      border-bottom: 1px solid #ccc;
      padding-bottom: 0.2em;
      margin-top: 2em;
    }
  </style>
</head>
<body>
  <h1>" ++ title ++ utf8 " - 分析要約履歴</h1>
  " ++ content ++ utf8 "
</body>
</html>
".

(** The HTML library.  [parse] is [BeautifulSoup(markup, "html.parser")],
    [render] is [str(soup)], [find_all_h2] lists [h2.text] for the tags of
    [soup.find_all("h2")] in document order, [body_append s f] is
    [s.body.append(f)] ([None] when [s.body] is [None], where the attribute
    access raises), and [last_h2_next_pre] is the text of
    [h2_tags[-1].find_next("pre")] ([None] when there is no such tag). *)
Record html_lib := {
  soup : Type;
  parse : str -> soup;
  render : soup -> str;
  find_all_h2 : soup -> list str;
  body_append : soup -> soup -> option soup;
  last_h2_next_pre : soup -> option str
}.

(** A file of the working directory: text, or bytes that are no UTF-8. *)
Inductive file :=
| Text (s : str)
| Undecodable.

#[global] Instance file_eq_dec : EqDecision file.
Proof. solve_decision. Defined.

(** The files of the working directory, by path.  A path is a key of the
    store and writing a file always succeeds: directories and I/O faults are
    outside the model. *)
Abbreviation store := (gmap str file).

(** [open(path, "r", encoding="utf-8")] and reading it whole *)
Definition read_text (fs : store) (path : str) : result str :=
  match fs !! path with
  | Some (Text s) => Ok s
  | Some Undecodable => Raise UnicodeDecodeError
  | None => Raise OtherError
  end.

(** [os.path.join(a, b)] on POSIX *)
Definition path_join (a b : str) : str :=
  if startswith b [47] then b
  else if bool_decide (a = []) || endswith a [47] then a ++ b
  else a ++ [47] ++ b.

(** [os.path.join(OUTPUT_DIR, f"{title}.html")] *)
Definition html_path (title : str) : str :=
  path_join OUTPUT_DIR (title ++ u ".html").

(** ** Existing-Record Inspector, Document Merger and the main loop *)

Section Pipeline.
Context (U : unicode_db) (H : html_lib) (post : str -> result json).

(** [extract_existing_dates] *)
Definition extract_existing_dates (fs : store) (path : str)
  : result (gset str) :=
  if bool_decide (is_Some (fs !! path)) then
    do content <- read_text fs path;
    Ok (list_to_set (strip U <$> find_all_h2 H (parse H content)))
  else Ok ∅.

(** The merge of one section into the document at [path]. *)
Definition write_section (fs : store) (title path section : str)
  : result store :=
  if bool_decide (is_Some (fs !! path)) then
    do content <- read_text fs path;
    match body_append H (parse H content) (parse H section) with
    | Some s => Ok (<[path := Text (render H s)]> fs)
    | None => Raise AttributeError
    end
  else Ok (<[path := Text (HTML_TEMPLATE title section)]> fs).

(** One iteration of the loop over [sorted(date_to_group.items())]. *)
Definition process_date (title path : str) (existing_dates : gset str)
    (fs : store) (item : str * list message) : result store :=
  let '(date, grouped_msgs) := item in
  if bool_decide (date ∈ existing_dates) then Ok fs
  else
    do full_text <- transcript grouped_msgs;
    let summary := summarize_with_gemini U post full_text in
    write_section fs title path (section_html date summary).

Fixpoint process_dates (title path : str) (existing_dates : gset str)
    (fs : store) (items : groups) : result store :=
  match items with
  | [] => Ok fs
  | item :: items' =>
      do fs' <- process_date title path existing_dates fs item;
      process_dates title path existing_dates fs' items'
  end.

(** [thread.get("title", "").strip()] *)
Definition thread_title (thread : json) : result str :=
  do t <- py_get thread (u "title") (JStr []);
  do t <- as_str t AttributeError;
  Ok (strip U t).

(** One iteration of the loop over the threads. *)
Definition process_thread (fs : store) (thread : json) : result store :=
  do title <- thread_title thread;
  if negb (endswith title FILTER_SUFFIX) then Ok fs
  else
    let path := html_path title in
    do existing_dates <- extract_existing_dates fs path;
    do messages <- read_messages thread;
    do date_to_group <- segment U messages;
    process_dates title path existing_dates fs (sorted_items date_to_group).

Fixpoint process_threads (fs : store) (threads : list json) : result store :=
  match threads with
  | [] => Ok fs
  | thread :: threads' =>
      do fs' <- process_thread fs thread;
      process_threads fs' threads'
  end.

(** [for thread in data] *)
Definition py_iter (data : json) : result (list json) :=
  match data with
  | JArr l => Ok l
  | JObj kv => Ok ((fun p => JStr p.1) <$> kv)
  | JStr s => Ok ((fun c => JStr [c]) <$> s)
  | _ => Raise TypeError
  end.

End Pipeline.

(** ** Index Builder *)

(** [r"<h2>(\d{4}-\d{2}-\d{2})</h2>"] *)
Definition h2_date_re : re :=
  seqs [ lits (u "<h2>");
         Group (seqs [ Cls Digit; Cls Digit; Cls Digit; Cls Digit; Lit 45;
                       Cls Digit; Cls Digit; Lit 45; Cls Digit; Cls Digit ]);
         lits (u "</h2>") ].

(** [label[（(（]?.*?[)））]?[：:]?\s*\n(.+)] *)
Definition labelled_line_re (label : str) : re :=
  seqs [ lits label;
         Opt (Cls (OneOf [65288; 40; 65288]));
         Star false Dot;
         Opt (Cls (OneOf [41; 65289; 65289]));
         Opt (Cls (OneOf [65306; 58]));
         Star true Space;
         Lit 10;
         Group (Seq (Cls Dot) (Star true Dot)) ].

Definition LATEST_STATUS : str := Eval vm_compute in utf8 "最新の状況".
Definition TIMING_ADVICE : str := Eval vm_compute in utf8 "いつ買うべきか".

(** [max(dates)] for a list that is not empty *)
Definition str_max (a b : str) : str := if str_ltb a b then b else a.

Definition py_max (dates : list str) : str :=
  match dates with
  | [] => []
  | d :: ds => foldl str_max d ds
  end.

(** [s.replace(old, "")] for [old] not empty: [skip] characters of an
    occurrence are still to be dropped. *)
Fixpoint remove_all (old : str) (skip : nat) (s : str) : str :=
  match s with
  | [] => []
  | c :: s' =>
      match skip with
      | S k => remove_all old k s'
      | O =>
          if startswith s old then remove_all old (length old - 1) s'
          else c :: remove_all old 0 s'
      end
  end.

(** The name of a file of [OUTPUT_DIR] matched by [glob("*.html")]. *)
Definition output_name (path : str) : option str :=
  let dir := OUTPUT_DIR ++ [47] in
  if startswith path dir then
    let name := drop (length dir) path in
    if bool_decide (47 ∉ name) && endswith name (u ".html") then Some name
    else None
  else None.

Definition name_le (a b : str) : Prop := str_leb a b = true.

#[global] Instance name_le_dec : RelDecision name_le.
Proof. intros a b. unfold name_le. apply _. Defined.

(** [Path(OUTPUT_DIR).glob("*.html")], as names, here in sorted order *)
Definition glob_html (fs : store) : list str :=
  merge_sort name_le (omap output_name (map_to_list fs).*1).

(** [f.stem] for a name that ends in [.html] *)
Definition stem (name : str) : str :=
  if bool_decide (name = u ".html") then name
  else take (length name - 5) name.

(** [f'<li><a href="output/{f.name}">{title}</a><br>最新の状況：{status}<br>いつ買うべきか：{timing}</li>'] *)
Definition list_item (name title status timing : str) : str :=
  u "<li><a href=" ++ [34] ++ u "output/" ++ name ++ [34] ++ u ">" ++ title
    ++ u "</a><br>" ++ LATEST_STATUS ++ [65306] ++ status
    ++ u "<br>" ++ TIMING_ADVICE ++ [65306] ++ timing ++ u "</li>".

Section Index.
Context (U : unicode_db) (H : html_lib).

(** One step of the loop of [get_latest_update_date]. *)
Definition latest_step (fs : store) (latest : str) (name : str) : result str :=
  do content <- read_text fs (OUTPUT_DIR ++ [47] ++ name);
  let dates := findall U h2_date_re content in
  match dates with
  | [] => Ok latest
  | _ =>
      let newest := py_max dates in
      Ok (if str_ltb latest newest then newest else latest)
  end.

Fixpoint latest_from (fs : store) (latest : str) (names : list str)
  : result str :=
  match names with
  | [] => Ok latest
  | name :: names' =>
      do latest' <- latest_step fs latest name;
      latest_from fs latest' names'
  end.

Definition get_latest_update_date (fs : store) : result str :=
  latest_from fs [] (glob_html fs).

(** [m.group(1).strip() if m else "記載なし"] *)
Definition labelled_line (label text : str) : str :=
  match search U (labelled_line_re label) text with
  | Some (caps, _) => strip U (default [] (head caps))
  | None => NOT_RECORDED
  end.

(** The body of the [try] of [extract_summary_lines]. *)
Definition summary_lines_body (fs : store) (path : str) : result (str * str) :=
  do content <- read_text fs path;
  let soup := parse H content in
  match find_all_h2 H soup with
  | [] => Ok (NOT_RECORDED, NOT_RECORDED)
  | _ =>
      match last_h2_next_pre H soup with
      | None => Ok (NOT_RECORDED, NOT_RECORDED)
      | Some text =>
          Ok (labelled_line LATEST_STATUS text, labelled_line TIMING_ADVICE text)
      end
  end.

Definition extract_summary_lines (fs : store) (path : str) : str * str :=
  match summary_lines_body fs path with
  | Ok r => r
  | Raise _ => (NOT_RECORDED, NOT_RECORDED)
  end.

(** The list item of one document. *)
Definition index_entry (fs : store) (name : str) : str :=
  let title := remove_all FILTER_SUFFIX 0 (stem name) in
  let '(status, timing) := extract_summary_lines fs (OUTPUT_DIR ++ [47] ++ name) in
  list_item name title status timing.

Definition index_sections (fs : store) : list str :=
  index_entry fs <$> glob_html fs.

Definition index_page (links latest : str) : str :=
  u "<!DOCTYPE html>
<html lang=" ++ [34] ++ u "ja" ++ [34] ++ u ">
<head>
  <meta charset=" ++ [34] ++ u "UTF-8" ++ [34] ++ u ">
  <meta name=" ++ [34] ++ u "robots" ++ [34] ++ u " content=" ++ [34]
    ++ u "noindex" ++ [34] ++ utf8 ">
  <title>米国株レポート一覧</title>
</head>
<body>
  <h1>米国株レポート</h1>
  <ul>
    " ++ links ++ utf8 "
  </ul>
  <p>最終更新日: " ++ latest ++ u "</p>
</body>
</html>
".

Definition generate_index_html (fs : store) : result store :=
  let links := join [10] (index_sections fs) in
  do latest <- get_latest_update_date fs;
  Ok (<[INDEX_HTML := Text (index_page links latest)]> fs).

End Index.

(** ** The program *)

Section Main.
Context (U : unicode_db) (H : html_lib) (post : str -> result json).

(** [main]: [input] is the decoded content of [INPUT_JSON], [None] when
    the file does not exist. *)
Definition main (input : option json) (fs : store) : result store :=
  match input with
  | None => Ok fs
  | Some data =>
      do threads <- py_iter data;
      do fs' <- process_threads U H post fs threads;
      generate_index_html U H fs'
  end.

End Main.

(** ** Vocabulary of the specification *)

Section DateSpec.
Context (U : unicode_db).

Definition is_digit (c : N) : Prop := is_Some (decimal U c).
Definition is_sep (c : N) : Prop := c = 45 \/ c = 47.

(** One or two decimal digits. *)
Definition one_or_two (g : str) : Prop :=
  (exists a, g = [a] /\ is_digit a) \/
  (exists a b, g = [a; b] /\ is_digit a /\ is_digit b).

(** The date pattern of the program at the start of [s]: a year [20YY], a
    separator, a month and a day of one or two digits each, the day taking
    the second digit when there is one; [rest] is what follows. *)
Definition date_at (s y m d rest : str) : Prop :=
  exists a b s1 s2,
    y = [50; 48; a; b] /\ is_digit a /\ is_digit b /\
    is_sep s1 /\ is_sep s2 /\ one_or_two m /\ one_or_two d /\
    s = y ++ [s1] ++ m ++ [s2] ++ d ++ rest /\
    (length d = 1%nat -> forall c rest', rest = c :: rest' -> ~ is_digit c).

(** The first match of the date pattern in [text]: no match starts at an
    earlier position. *)
Definition first_date (text y m d : str) : Prop :=
  exists pre s rest,
    text = pre ++ s /\ date_at s y m d rest /\
    forall i, (i < length pre)%nat ->
      forall y' m' d' rest', ~ date_at (drop i text) y' m' d' rest'.

(** A canonical key: [YYYY-MM-DD] in ASCII digits. *)
Definition ascii_digit (c : N) : bool := (48 <=? c) && (c <=? 57).

Definition is_date_key (k : str) : bool :=
  match k with
  | [a; b; c; d; s1; e; f; s2; g; h] =>
      forallb ascii_digit [a; b; c; d; e; f; g; h] && (s1 =? 45) && (s2 =? 45)
  | _ => false
  end.

(** The pattern as the claim words it: any four-digit year. *)
Definition claimed_date_at (s y m d rest : str) : Prop :=
  exists s1 s2,
    length y = 4%nat /\ Forall is_digit y /\
    is_sep s1 /\ is_sep s2 /\ one_or_two m /\ one_or_two d /\
    s = y ++ [s1] ++ m ++ [s2] ++ d ++ rest.

End DateSpec.

(** An assistant message and a user message with a text. *)
Definition assistant (t : str) : message := Message (JStr (u "assistant")) (JStr t).
Definition user (t : str) : message := Message (JStr (u "user")) (JStr t).

Section SegmentSpec.
Context (U : unicode_db).

(** The date a message introduces: the one its text carries when the
    message is from the assistant. *)
Definition detected (msg : message) : option str :=
  match text msg with
  | JStr t =>
      if is_str (role msg) (u "assistant") then extract_date_from_text U t
      else None
  | _ => None
  end.

(** The most recently detected date among the messages up to position [i]
    included. *)
Definition cursor_at (msgs : list message) (i : nat) : option str :=
  last (omap detected (take (S i) msgs)).

(** The messages the specification assigns to date [d], in order. *)
Definition assigned (d : str) (msgs : list message) : list message :=
  omap (fun i => if bool_decide (cursor_at msgs i = Some d) then msgs !! i else None)
       (seq 0 (length msgs)).

(** The messages of the bucket of [d]. *)
Fixpoint bucket (d : str) (g : groups) : list message :=
  match g with
  | [] => []
  | (d', ms) :: g' => if str_eqb d' d then ms else bucket d g'
  end.

(** The segmenter's precondition: the text of an assistant message is a
    string. *)
Definition well_typed (msg : message) : Prop :=
  is_str (role msg) (u "assistant") = true -> exists t, text msg = JStr t.

End SegmentSpec.

(** The scenario of the specification: three assistant messages, dated
    2024-01-01, undated and 2024-01-05, with user messages in between, after
    a user message that precedes every date. *)
Definition scenario : list message :=
  [ user (u "which one?");
    assistant (u "2024-01-01: up 2%, and 2024-02-02 is the earnings call");
    user (u "and now?");
    assistant (u "still up");
    user (u "today?");
    assistant (u "as of 2024/1/5 it is flat") ].

(** The shape the summarizer expects of a response:
    [{"candidates": [{"content": {"parts": [{"text": s, ...}, ...], ...}, ...}, ...], ...}]. *)
Definition field (v : json) (k : str) (x : json) : Prop :=
  exists kv, v = JObj kv /\ lookup_key k kv = Some x.

Definition first_item (v x : json) : Prop := exists l, v = JArr (x :: l).

Definition has_candidate_text (response : json) (s : str) : Prop :=
  exists cands c0 content parts p0,
    field response (u "candidates") cands /\ first_item cands c0 /\
    field c0 (u "content") content /\ field content (u "parts") parts /\
    first_item parts p0 /\ field p0 (u "text") (JStr s).

(** The summarization call fails on [text]: the request raises, or the
    decoded response lacks the candidate text. *)
Definition call_fails (post : str -> result json) (text : str) : Prop :=
  (exists e, post (prompt text) = Raise e) \/
  (exists response, post (prompt text) = Ok response /\
     forall s, ~ has_candidate_text response s).

(** The topic identity of the specification: the title without the filter
    suffix. *)
Definition strip_suffix (title : str) : str :=
  take (length title - length FILTER_SUFFIX) title.

(** ** Assumptions on the HTML library

    What the pipeline needs of the library, for date keys: a heading
    written through the page shell or through a section is found by
    [find_all("h2")]; appending to the body and serializing keeps the
    headings of the document, in order, and adds those of the fragment. *)
Record html_laws (H : html_lib) : Prop := {
  template_heading : forall title d summary,
    is_date_key d = true ->
    d ∈ find_all_h2 H (parse H (HTML_TEMPLATE title (section_html d summary)));
  section_heading : forall d summary,
    is_date_key d = true ->
    d ∈ find_all_h2 H (parse H (section_html d summary));
  append_keeps : forall s f s',
    body_append H s f = Some s' ->
    find_all_h2 H s `sublist_of` find_all_h2 H (parse H (render H s'));
  append_adds : forall s f s' x,
    body_append H s f = Some s' ->
    x ∈ find_all_h2 H f ->
    x ∈ find_all_h2 H (parse H (render H s'))
}.

(** ** A small HTML library

    An instance of the interface, used to exercise the theorems: a document
    is its text with the entity [&amp;] decoded; the serializer writes [&]
    as [&amp;]; a heading is [<h2>text</h2>] with no tag inside; the body
    ends at the last [</body>]. *)
Module Mini.

Definition AMP : str := Eval vm_compute in u "amp;".
Definition H2_OPEN : str := Eval vm_compute in u "<h2>".
Definition H2_CLOSE : str := Eval vm_compute in u "</h2>".
Definition BODY_CLOSE : str := Eval vm_compute in u "</body>".
Definition PRE_OPEN : str := Eval vm_compute in u "<pre>".

Fixpoint escape (s : str) : str :=
  match s with
  | [] => []
  | c :: s' => if c =? 38 then 38 :: AMP ++ escape s' else c :: escape s'
  end.

Fixpoint unescape (s : str) : str :=
  match s with
  | [] => []
  | c :: s' =>
      match s' with
      | c1 :: c2 :: c3 :: c4 :: s5 =>
          if (c =? 38) && (c1 =? 97) && (c2 =? 109) && (c3 =? 112) && (c4 =? 59)
          then 38 :: unescape s5
          else c :: unescape s'
      | _ => c :: unescape s'
      end
  end.

(** The text of a heading whose opening tag was just read. *)
Fixpoint heading_text (s : str) : option str :=
  match s with
  | [] => None
  | c :: s' =>
      if c =? 60 then (if startswith s H2_CLOSE then Some [] else None)
      else cons c <$> heading_text s'
  end.

Definition heading_here (s : str) : list str :=
  if startswith s H2_OPEN then
    match heading_text (drop 4 s) with
    | Some t => [t]
    | None => []
    end
  else [].

Fixpoint scan_h2 (s : str) : list str :=
  match s with
  | [] => []
  | _ :: s' => heading_here s ++ scan_h2 s'
  end.

(** [f] inserted before the last [</body>] of [s]. *)
Fixpoint insert_in_body (f s : str) : option str :=
  match s with
  | [] => None
  | c :: s' =>
      match insert_in_body f s' with
      | Some r => Some (c :: r)
      | None => if startswith s BODY_CLOSE then Some (f ++ s) else None
      end
  end.

Fixpoint last_h2_tail (s : str) : option str :=
  match s with
  | [] => None
  | _ :: s' =>
      match last_h2_tail s' with
      | Some t => Some t
      | None => if startswith s H2_OPEN then Some s else None
      end
  end.

Fixpoint until_tag (s : str) : str :=
  match s with
  | [] => []
  | c :: s' => if c =? 60 then [] else c :: until_tag s'
  end.

Fixpoint first_pre (s : str) : option str :=
  match s with
  | [] => None
  | _ :: s' =>
      if startswith s PRE_OPEN then Some (until_tag (drop 5 s))
      else first_pre s'
  end.

Definition lib : html_lib :=
  {| soup := str;
     parse := unescape;
     render := escape;
     find_all_h2 := scan_h2;
     body_append := fun s f => insert_in_body f s;
     last_h2_next_pre := fun s => last_h2_tail s ≫= first_pre |}.

End Mini.

(** ** Sample inputs *)

Module Sample.

(** A node of a mapping carrying one message. *)
Definition node (r t : str) : json :=
  JObj [ (u "message",
          JObj [ (u "author", JObj [(u "role", JStr r)]);
                 (u "content", JObj [(u "parts", JArr [JStr t])]) ]) ].

(** A message without author. *)
Definition node_without_author : json :=
  JObj [ (u "message", JObj [ (u "content", JObj [(u "parts", JArr [JStr (u "hi")])]) ]) ].

Definition title : str := u "Foo" ++ FILTER_SUFFIX.

Definition thread : json :=
  JObj [ (u "title", JStr title);
         (u "mapping",
          JObj [ (u "n0", JObj [(u "message", JNull)]);
                 (u "n1", node (u "assistant") (u "2024-01-01 up"));
                 (u "n2", node (u "user") (u "S&P?"));
                 (u "n3", node (u "assistant") (u "2024/1/5 flat")) ]) ].

Definition broken_thread : json :=
  JObj [ (u "title", JStr title);
         (u "mapping", JObj [ (u "n0", node_without_author) ]) ].

(** A response carrying the candidate text [s]. *)
Definition reply (s : str) : json :=
  JObj [ (u "candidates",
          JArr [ JObj [ (u "content",
                        JObj [ (u "parts", JArr [ JObj [(u "text", JStr s)] ]) ]) ] ]) ].

Definition post_ok (_ : str) : result json := Ok (reply (u " S&P up ")).
Definition post_down (_ : str) : result json := Raise OtherError.
Definition post_empty (_ : str) : result json := Ok (JObj [(u "error", JStr (u "quota"))]).

(** An output directory whose only document cannot be decoded. *)
Definition unreadable : store := {[ u "output/bad.html" := Undecodable ]}.

(** Two documents. *)
Definition docs : store :=
  {[ u "output/a.html" :=
       Text (u "<body><h2>2024-01-05</h2><pre>x</pre><h2>2023-12-31</h2><pre>y</pre></body>");
     u "output/b.html" := Text (u "<body><h2>2024-02-01</h2><pre>z</pre></body>") ]}.

(** The document of [title] after a first run that recorded one date. *)
Definition first_section : str := section_html (u "2024-01-01") (u "S&P up").

Definition one_section : store :=
  {[ html_path title := Text (HTML_TEMPLATE title first_section) ]}.

End Sample.

(** [x in s]: the string [x] occurs in [s]. *)
Fixpoint occurs (x s : str) : bool :=
  startswith s x ||
  match s with
  | [] => false
  | _ :: s' => occurs x s'
  end.

(** The dates of the section headings of a document, as the index
    builder reads them: the matches of [<h2>YYYY-MM-DD</h2>] in the file. *)
Definition dates_of (U : unicode_db) (fs : store) (name : str) : list str :=
  match read_text fs (OUTPUT_DIR ++ [47] ++ name) with
  | Ok content => findall U h2_date_re content
  | Raise _ => []
  end.

(** Those of all documents of the output directory. *)
Definition heading_dates (U : unicode_db) (fs : store) : list str :=
  mjoin (dates_of U fs <$> glob_html fs).

(** Every document of the output directory can be read. *)
Definition readable (fs : store) : Prop :=
  forall name, name ∈ glob_html fs ->
    exists content, fs !! (OUTPUT_DIR ++ [47] ++ name) = Some (Text content).

(** What the segmenter's loop maintains: the buckets hold the messages
    assigned so far, under distinct keys, and no bucket is empty. *)
Definition seg_inv (U : unicode_db) (pre : list message) (g : groups) : Prop :=
  NoDup g.*1 /\
  (forall d, bucket d g = assigned U d pre) /\
  (forall d, d ∈ g.*1 <-> bucket d g <> []).

(** The headings of the document at [path]. *)
Definition headings (H : html_lib) (fs : store) (path : str) : list str :=
  match fs !! path with
  | Some (Text content) => find_all_h2 H (parse H content)
  | _ => []
  end.

(** The path of the document of some in-scope topic. *)
Definition doc_path (path : str) : Prop :=
  exists title, endswith title FILTER_SUFFIX = true /\ path = html_path title.

(** [fs2] records what [fs1] records: every heading of a document is still
    there, and no document became unreadable. *)
Definition grows (H : html_lib) (fs1 fs2 : store) : Prop :=
  forall path, doc_path path ->
    (forall x, x ∈ headings H fs1 path -> x ∈ headings H fs2 path) /\
    (fs2 !! path = Some Undecodable -> fs1 !! path = Some Undecodable).

(** The dates recorded in the document at [path], as the inspector reads
    them. *)
Definition recorded (U : unicode_db) (H : html_lib) (fs : store) (path : str)
  : list str :=
  strip U <$> headings H fs path.

(** A string of the shape [DDDD-DD-DD], each [D] a decimal digit. *)
Definition date_shape (U : unicode_db) (d : str) : Prop :=
  exists y1 y2 y3 y4 m1 m2 d1 d2,
    d = [y1; y2; y3; y4; 45; m1; m2; 45; d1; d2] /\
    Forall (is_digit U) [y1; y2; y3; y4; m1; m2; d1; d2].

(** [d] is the date of a section heading of [content]: the heading
    [<h2>d</h2>] occurs in it. *)
Definition is_heading_date (U : unicode_db) (content d : str) : Prop :=
  date_shape U d /\
  exists a b, content = a ++ u "<h2>" ++ d ++ u "</h2>" ++ b.

(** ** Vocabulary of the further properties *)

(** The comparison of two numbers below 100 through their two digits,
    checked case by case. *)
Definition two_digit_check (a b : N) (r : bool) : bool :=
  bool_decide
    (((48 + a / 10 <? 48 + b / 10) ||
      ((48 + a / 10 =? 48 + b / 10) &&
       ((48 + a mod 10 <? 48 + b mod 10) ||
        ((48 + a mod 10 =? 48 + b mod 10) && r))))
     = ((a <? b) || ((a =? b) && r))).


(** A node holding one message with the given role and one content part. *)
Definition node_of (role part : json) : json :=
  JObj [ (u "message",
          JObj [ (u "author", JObj [(u "role", role)]);
                 (u "content", JObj [(u "parts", JArr [part])]) ]) ].

(** The text of a message is a string. *)
Definition has_text (msg : message) : Prop := exists t, text msg = JStr t.

(** A store in which the document of the sample topic cannot be decoded. *)
Definition unreadable_topic : store := {[ html_path Sample.title := Undecodable ]}.

(** The end of the labelled-line pattern, [\n(.+)], as the continuation of
    what precedes it, and the same after [\s*]. *)
Definition line_kont (U : unicode_db) : kont (A:=list str * str) :=
  rmatch U (Lit 10)
    (rmatch U (Group (Seq (Cls Dot) (Star true Dot)))
       (rmatch U Eps (fun caps s => Some (caps, s)))).

Definition blank_kont (U : unicode_db) : kont (A:=list str * str) :=
  star U true Space (line_kont U).

(** A newline, the line [line] and the rest of the text. *)
Definition line_tail (line rest : str) : str := 10 :: line ++ rest.

(** The match whose last group is [line] and that stops before [rest]. *)
Definition found_line (line rest : str) (caps : list str) : option (list str * str) :=
  Some (caps ++ [line], rest).

(** A continuation that, started anywhere on the rest of the label line,
    finds the line or nothing, and that finds it from the white space that
    ends the label line. *)
Definition settles (U : unicode_db) (line rest : str)
    (k : kont (A:=list str * str)) : Prop :=
  (forall caps y w,
     Forall (fun x => x <> 10) y -> Forall (fun x => is_space U x = true) w ->
     k caps (y ++ w ++ line_tail line rest) = found_line line rest caps \/
     k caps (y ++ w ++ line_tail line rest) = None) /\
  (forall caps w,
     Forall (fun x => is_space U x = true) w ->
     k caps (w ++ line_tail line rest) = found_line line rest caps).

(** * Properties *)

Local Open Scope result_scope.

(** ** The date extractor *)

Lemma below_cases (P : N -> bool) (n : nat) :
  forallb P (N.of_nat <$> seq 0 n) = true ->
  forall v, v < N.of_nat n -> P v = true.
Proof.
  intros Hall v Hv. rewrite forallb_forall in Hall. apply Hall.
  apply list_elem_of_In, list_elem_of_fmap. exists (N.to_nat v). split; [lia|].
  apply list_elem_of_In, in_seq. lia.
Qed.

Lemma fmt0_2 v : v < 100 -> fmt0 2 v = [48 + v / 10; 48 + v mod 10].
Proof.
  intros Hv.
  apply (below_cases
    (fun v => bool_decide (fmt0 2 v = [48 + v / 10; 48 + v mod 10])) 100) in Hv.
  - apply bool_decide_eq_true in Hv. exact Hv.
  - vm_compute. reflexivity.
Qed.

Lemma fmt0_4 v :
  v < 100 -> fmt0 4 (2000 + v) = [50; 48; 48 + v / 10; 48 + v mod 10].
Proof.
  intros Hv.
  apply (below_cases
    (fun v => bool_decide
       (fmt0 4 (2000 + v) = [50; 48; 48 + v / 10; 48 + v mod 10])) 100) in Hv.
  - apply bool_decide_eq_true in Hv. exact Hv.
  - vm_compute. reflexivity.
Qed.

Lemma ascii_digit_48 x : x < 10 -> ascii_digit (48 + x) = true.
Proof.
  intros Hx. unfold ascii_digit. apply andb_true_intro.
  split; apply N.leb_le; lia.
Qed.

Lemma date_key_canonical vy vm vd :
  vy < 100 -> vm < 100 -> vd < 100 ->
  is_date_key (date_key (2000 + vy) vm vd) = true.
Proof.
  intros Hy Hm Hd. unfold date_key.
  rewrite fmt0_4, !fmt0_2 by assumption. cbn [app is_date_key forallb].
  assert (forall v, v < 100 -> v / 10 < 10) as Hdiv
    by (intros v Hv; apply N.Div0.div_lt_upper_bound; lia).
  assert (forall v, v mod 10 < 10) as Hmod by (intros v; apply N.mod_lt; lia).
  rewrite ?ascii_digit_48 by auto. reflexivity.
Qed.

Lemma take_prefix (p s : str) : take (length (p ++ s) - length s) (p ++ s) = p.
Proof.
  rewrite length_app. replace (length p + length s - length s)%nat with (length p) by lia.
  apply take_app_length.
Qed.

Ltac prefix_of l t :=
  lazymatch l with
  | t => constr:(@nil N)
  | ?c :: ?l' => let p := prefix_of l' t in constr:(c :: p)
  end.

Ltac take_norm :=
  repeat match goal with
  | |- context [take (length ?l - length ?t) ?l] =>
      let p := prefix_of l t in
      replace (take (length l - length t) l) with p
        by (symmetry; apply (take_prefix p t))
  end.

Ltac split_ifs :=
  repeat (match goal with
          | |- context [if ?b then _ else _] => destruct b eqn:?
          end; try discriminate).

Section DateFacts.
Context (U : unicode_db).

Lemma cls_digit_iff c : cls_mem U Digit c = true <-> is_digit U c.
Proof. unfold cls_mem, is_digit. apply bool_decide_eq_true. Qed.

Lemma cls_digit_false c : cls_mem U Digit c = false <-> ~ is_digit U c.
Proof. unfold cls_mem, is_digit. apply bool_decide_eq_false. Qed.

Lemma cls_sep_iff c : cls_mem U (OneOf [45; 47]) c = true <-> is_sep c.
Proof.
  unfold cls_mem, is_sep. rewrite bool_decide_eq_true.
  rewrite !elem_of_cons, elem_of_nil. tauto.
Qed.

Lemma sep_not_digit c : is_sep c -> ~ is_digit U c.
Proof.
  unfold is_digit. intros [-> | ->]; rewrite decimal_ascii by lia; simpl;
    intros [? ?]; discriminate.
Qed.

Lemma match_here_date_inv s caps rest :
  match_here U date_re s = Some (caps, rest) ->
  exists y m d, caps = [y; m; d] /\ date_at U s y m d rest.
Proof.
  unfold match_here, date_re, date_sep, digits_1_2. cbn [seqs rmatch].
  destruct s as [|c1 [|c2 [|c3 [|c4 [|c5 [|c6 [|c7 [|c8 [|c9 [|c10 s]]]]]]]]]];
    split_ifs; try discriminate.
  all: take_norm; intros [= <- <-].
  all: repeat match goal with
       | H : (_ =? _) = true |- _ => apply N.eqb_eq in H; subst
       | H : cls_mem U Digit _ = true |- _ => apply cls_digit_iff in H
       | H : cls_mem U Digit _ = false |- _ => apply cls_digit_false in H
       | H : cls_mem U (OneOf _) _ = true |- _ => apply cls_sep_iff in H
       end.
  all: do 3 eexists; split; [reflexivity|].
  all: do 4 eexists; split_and!.
  all: try reflexivity.
  all: try assumption.
  all: try (left; eexists; split; [reflexivity|assumption]).
  all: try (right; do 2 eexists; split_and!; [reflexivity|assumption..]).
  all: simpl; intros Hlen c rest' Heq; try discriminate.
  all: injection Heq as <- <-; assumption.
Qed.

Lemma match_here_date s y m d rest :
  date_at U s y m d rest ->
  match_here U date_re s = Some ([y; m; d], rest).
Proof.
  intros (a & b & s1 & s2 & -> & Ha & Hb & Hs1 & Hs2 & Hm & Hd & -> & Hg).
  pose proof (sep_not_digit _ Hs2) as Hs2'.
  apply cls_digit_iff in Ha, Hb. apply cls_sep_iff in Hs1, Hs2.
  apply cls_digit_false in Hs2'.
  unfold match_here, date_re, date_sep, digits_1_2.
  destruct Hm as [(m1 & -> & Hm1) | (m1 & m2 & -> & Hm1 & Hm2)];
    destruct Hd as [(d1 & -> & Hd1) | (d1 & d2 & -> & Hd1 & Hd2)];
    repeat match goal with
    | H : is_digit U _ |- _ => apply cls_digit_iff in H
    end;
    cbn [seqs rmatch app]; change (50 =? 50) with true; change (48 =? 48) with true;
    cbn iota; rewrite ?Ha, ?Hb, ?Hs1, ?Hs2, ?Hs2', ?Hm1, ?Hm2, ?Hd1, ?Hd2;
    cbn iota; rewrite ?Hs2, ?Hd1, ?Hd2; cbn iota.
  - destruct rest as [|c rest'].
    + take_norm. reflexivity.
    + assert (cls_mem U Digit c = false) as ->
        by (apply cls_digit_false; eapply Hg; reflexivity).
      take_norm. reflexivity.
  - rewrite ?Hd2. take_norm. reflexivity.
  - destruct rest as [|c rest'].
    + take_norm. reflexivity.
    + assert (cls_mem U Digit c = false) as ->
        by (apply cls_digit_false; eapply Hg; reflexivity).
      take_norm. reflexivity.
  - rewrite ?Hd2. take_norm. reflexivity.
Qed.

Lemma search_skip r pre s :
  (forall i, (i < length pre)%nat -> match_here U r (drop i (pre ++ s)) = None) ->
  search U r (pre ++ s) = search U r s.
Proof.
  induction pre as [|c pre IH]; intros Hn; [reflexivity|].
  pose proof (Hn 0%nat ltac:(simpl; lia)) as H0. cbn [drop app] in H0.
  cbn [app search]. rewrite H0.
  apply IH. intros i Hi. apply (Hn (S i)). simpl. lia.
Qed.

Lemma search_here r s x : match_here U r s = Some x -> search U r s = Some x.
Proof. intros Hm. destruct s; simpl; rewrite Hm; reflexivity. Qed.

Lemma search_Some_inv r s x :
  search U r s = Some x ->
  exists pre s', s = pre ++ s' /\ match_here U r s' = Some x /\
    forall i, (i < length pre)%nat -> match_here U r (drop i s) = None.
Proof.
  induction s as [|c s IH]; cbn [search].
  - destruct (match_here U r []) eqn:E; [|discriminate].
    intros [= ->]. exists [], []. split_and!; [reflexivity|assumption|].
    simpl; intros; lia.
  - destruct (match_here U r (c :: s)) eqn:E.
    + intros [= ->]. exists [], (c :: s). split_and!; [reflexivity|assumption|].
      simpl; intros; lia.
    + intros (pre & s' & -> & Hm & Hn)%IH.
      exists (c :: pre), s'. split_and!; [reflexivity|assumption|].
      intros [|i] Hi; [exact E|]. apply Hn. simpl in Hi. lia.
Qed.

Lemma search_None r s :
  (forall i, match_here U r (drop i s) = None) -> search U r s = None.
Proof.
  induction s as [|c s IH]; intros Hn; cbn [search].
  - pose proof (Hn 0%nat) as H0. cbn [drop] in H0. rewrite H0. reflexivity.
  - pose proof (Hn 0%nat) as H0. cbn [drop] in H0. rewrite H0.
    apply IH. intros i. apply (Hn (S i)).
Qed.

Lemma match_here_date_None s :
  (forall y m d rest, ~ date_at U s y m d rest) ->
  match_here U date_re s = None.
Proof.
  intros Hn. destruct (match_here U date_re s) as [[caps rest]|] eqn:E; [|reflexivity].
  apply match_here_date_inv in E as (y & m & d & _ & Hd).
  destruct (Hn _ _ _ _ Hd).
Qed.

Lemma int_year a b :
  is_digit U a -> is_digit U b ->
  exists v, int U [50; 48; a; b] = Some (2000 + v) /\ v < 100.
Proof.
  intros [va Ha] [vb Hb]. exists (10 * va + vb).
  pose proof (decimal_lt U _ _ Ha). pose proof (decimal_lt U _ _ Hb).
  unfold int. cbn [int_acc].
  rewrite (decimal_ascii U 50), (decimal_ascii U 48) by lia. cbn [andb N.leb].
  simpl. rewrite Ha, Hb. split; [f_equal; lia|lia].
Qed.

Lemma one_or_two_int g :
  one_or_two U g -> exists v, int U g = Some v /\ v < 100.
Proof.
  intros [(a & -> & [va Ha]) | (a & b & -> & [va Ha] & [vb Hb])].
  - exists va. pose proof (decimal_lt U _ _ Ha).
    unfold int. cbn [int_acc]. rewrite Ha. split; [f_equal; lia|lia].
  - exists (10 * va + vb).
    pose proof (decimal_lt U _ _ Ha). pose proof (decimal_lt U _ _ Hb).
    unfold int. cbn [int_acc]. rewrite Ha, Hb. split; [f_equal; lia|lia].
Qed.

(** The extractor on a text with a first match. *)
Lemma extract_first_date text y m d :
  first_date U text y m d ->
  exists vy vm vd,
    int U y = Some vy /\ int U m = Some vm /\ int U d = Some vd /\
    extract_date_from_text U text = Some (date_key vy vm vd) /\
    is_date_key (date_key vy vm vd) = true.
Proof.
  intros (pre & s & rest & -> & Hd & Hfirst).
  pose proof Hd as (a & b & s1 & s2 & -> & Ha & Hb & _ & _ & Hm & Hdd & _ & _).
  destruct (int_year a b Ha Hb) as (vy & Hy & Hvy).
  destruct (one_or_two_int m Hm) as (vm & Hvm & Hvm').
  destruct (one_or_two_int d Hdd) as (vd & Hvd & Hvd').
  exists (2000 + vy), vm, vd. split_and!; try assumption.
  - unfold extract_date_from_text.
    rewrite search_skip.
    + rewrite (search_here _ _ _ (match_here_date _ _ _ _ _ Hd)).
      rewrite Hy, Hvm, Hvd. reflexivity.
    + intros i Hi. apply match_here_date_None. intros y' m' d' rest'.
      apply Hfirst. exact Hi.
  - apply date_key_canonical; assumption.
Qed.

(** The extractor finds nothing exactly when the pattern occurs nowhere. *)
Lemma extract_no_date text :
  (forall i y m d rest, ~ date_at U (drop i text) y m d rest) ->
  extract_date_from_text U text = None.
Proof.
  intros Hn. unfold extract_date_from_text.
  rewrite search_None; [reflexivity|].
  intros i. apply match_here_date_None. apply Hn.
Qed.

Lemma extract_Some_inv text k :
  extract_date_from_text U text = Some k ->
  is_date_key k = true /\ exists y m d, first_date U text y m d.
Proof.
  unfold extract_date_from_text.
  destruct (search U date_re text) as [[caps rest]|] eqn:E; [|discriminate].
  apply search_Some_inv in E as (pre & s & -> & Hm & Hn).
  apply match_here_date_inv in Hm as (y & m & d & -> & Hd).
  assert (first_date U (pre ++ s) y m d) as Hf.
  { exists pre, s, rest. split_and!; [reflexivity|assumption|].
    intros i Hi y' m' d' rest' Hd'.
    apply match_here_date in Hd'. rewrite (Hn i Hi) in Hd'. discriminate. }
  destruct (extract_first_date _ _ _ _ Hf) as (vy & vm & vd & Hy & Hvm & Hvd & _ & Hk).
  rewrite Hy, Hvm, Hvd. intros [= <-]. split; [assumption|eauto].
Qed.

End DateFacts.

Lemma first_date_of_search U text y m d rest :
  search U date_re text = Some ([y; m; d], rest) ->
  first_date U text y m d.
Proof.
  intros (pre & s & -> & Hm & Hn)%search_Some_inv.
  apply match_here_date_inv in Hm as (y' & m' & d' & [= <- <- <-] & Hd).
  exists pre, s, rest. split_and!; [reflexivity|assumption|].
  intros i Hi y' m' d' rest' Hd'.
  apply match_here_date in Hd'. rewrite (Hn i Hi) in Hd'. discriminate.
Qed.

Lemma date_key_truthy k : is_date_key k = true -> opt_truthy (Some k) = true.
Proof. destruct k; [discriminate|reflexivity]. Qed.

(** C9 (as amended): for every assistant message whose text contains the
    date pattern of the program -- a year of the form 20YY, a separator
    '-' or '/', a month of one or two digits, a separator, a day of one or
    two digits -- the extractor turns the first match into the zero-padded
    key YYYY-MM-DD, and that key becomes the cursor whatever it was. *)
Theorem C9_first_match_sets_cursor U text y m d current_date :
  first_date U text y m d ->
  exists vy vm vd,
    int U y = Some vy /\ int U m = Some vm /\ int U d = Some vd /\
    extract_date_from_text U text = Some (date_key vy vm vd) /\
    is_date_key (date_key vy vm vd) = true /\
    next_date U current_date (assistant text) = Ok (Some (date_key vy vm vd)).
Proof.
  intros Hf.
  destruct (extract_first_date U _ _ _ _ Hf) as (vy & vm & vd & Hy & Hm & Hd & He & Hk).
  exists vy, vm, vd. split_and!; try assumption.
  unfold next_date, assistant. cbn. rewrite He, (date_key_truthy _ Hk). reflexivity.
Qed.

Lemma C9_first_match_sets_cursor_witness :
  exists vy vm vd,
    int ascii_db (u "2024") = Some vy /\ int ascii_db (u "1") = Some vm /\
    int ascii_db (u "5") = Some vd /\
    extract_date_from_text ascii_db (u "on 2024/1/5 and 2025-02-03")
      = Some (date_key vy vm vd) /\
    is_date_key (date_key vy vm vd) = true /\
    next_date ascii_db (Some (u "2023-12-31"))
      (assistant (u "on 2024/1/5 and 2025-02-03")) = Ok (Some (date_key vy vm vd)).
Proof.
  apply (C9_first_match_sets_cursor ascii_db (u "on 2024/1/5 and 2025-02-03")
           (u "2024") (u "1") (u "5") (Some (u "2023-12-31"))).
  apply (first_date_of_search ascii_db _ _ _ _ (u " and 2025-02-03")).
  vm_compute. reflexivity.
Defined.

(** The claim as worded fails: a four-digit year that does not start with
    20 is no match, and the cursor keeps its value. *)
Lemma C9_counterexample :
  claimed_date_at ascii_db (u "1999-01-05") (u "1999") (u "01") (u "05") [] /\
  extract_date_from_text ascii_db (u "1999-01-05") = None /\
  next_date ascii_db (Some (u "2024-01-01")) (assistant (u "1999-01-05"))
    = Ok (Some (u "2024-01-01")).
Proof.
  split; [|split; vm_compute; reflexivity].
  exists 45, 45.
  assert (forall c, ascii_digit c = true -> is_digit ascii_db c) as Hdig.
  { intros c Hc. unfold is_digit. simpl. unfold ascii_decimal.
    unfold ascii_digit in Hc. rewrite Hc. eauto. }
  split_and!; try reflexivity; try (left; reflexivity).
  - repeat constructor; apply Hdig; reflexivity.
  - right. exists 48, 49. split_and!; [reflexivity|apply Hdig; reflexivity..].
  - right. exists 48, 53. split_and!; [reflexivity|apply Hdig; reflexivity..].
Qed.

(** C10: the extractor performs no calendar check: when the month or the
    day of the first match is out of range, the zero-padded key is returned
    all the same. *)
Theorem C10_no_calendar_check U text y m d vm vd :
  first_date U text y m d ->
  int U m = Some vm -> int U d = Some vd ->
  vm = 0 \/ 12 < vm \/ vd = 0 \/ 31 < vd ->
  exists vy, int U y = Some vy /\
    extract_date_from_text U text = Some (date_key vy vm vd).
Proof.
  intros Hf Hm Hd _.
  destruct (extract_first_date U _ _ _ _ Hf) as (vy & vm' & vd' & Hy & Hm' & Hd' & He & _).
  rewrite Hm in Hm'. rewrite Hd in Hd'. injection Hm' as <-. injection Hd' as <-.
  exists vy. split; assumption.
Qed.

Lemma C10_no_calendar_check_witness :
  exists vy, int ascii_db (u "2024") = Some vy /\
    extract_date_from_text ascii_db (u "2024-13-45") = Some (date_key vy 13 45).
Proof.
  apply (C10_no_calendar_check ascii_db (u "2024-13-45") (u "2024") (u "13") (u "45")).
  - apply (first_date_of_search ascii_db _ _ _ _ []). vm_compute. reflexivity.
  - vm_compute. reflexivity.
  - vm_compute. reflexivity.
  - right. left. reflexivity.
Defined.

Example extract_date_invalid :
  extract_date_from_text ascii_db (u "2024-13-45") = Some (u "2024-13-45").
Proof. vm_compute. reflexivity. Qed.

Example extract_date_plain :
  extract_date_from_text ascii_db (u "on 2024-1-5 we bought") = Some (u "2024-01-05").
Proof. vm_compute. reflexivity. Qed.

Example extract_date_slash :
  extract_date_from_text ascii_db (u "x2024/12/31, then 2025-01-01") = Some (u "2024-12-31").
Proof. vm_compute. reflexivity. Qed.

Example extract_date_none :
  extract_date_from_text ascii_db (u "1999-01-05 and 2024-123-1") = None.
Proof. vm_compute. reflexivity. Qed.

Example extract_date_backtrack :
  extract_date_from_text ascii_db (u "2024-1-234") = Some (u "2024-01-23").
Proof. vm_compute. reflexivity. Qed.

(** ** The date segmenter *)

Section SegmenterFacts.
Context (U : unicode_db).

Lemma str_eqb_true a b : str_eqb a b = true <-> a = b.
Proof. apply bool_decide_eq_true. Qed.

Lemma str_eqb_false a b : str_eqb a b = false <-> a <> b.
Proof. apply bool_decide_eq_false. Qed.

Lemma opt_truthy_extract t :
  opt_truthy (extract_date_from_text U t)
  = bool_decide (is_Some (extract_date_from_text U t)).
Proof.
  destruct (extract_date_from_text U t) as [k|] eqn:E.
  - apply extract_Some_inv in E as [Hk _].
    rewrite (date_key_truthy _ Hk). symmetry. apply bool_decide_eq_true. eauto.
  - symmetry. apply bool_decide_eq_false. intros [? ?]; discriminate.
Qed.

Lemma detected_truthy msg d : detected U msg = Some d -> opt_truthy (Some d) = true.
Proof.
  unfold detected. destruct (text msg); try discriminate.
  destruct (is_str _ _); [|discriminate].
  intros E. apply extract_Some_inv in E as [Hk _]. apply date_key_truthy, Hk.
Qed.

Lemma next_date_detected current_date msg :
  well_typed msg ->
  next_date U current_date msg
  = Ok (match detected U msg with Some d => Some d | None => current_date end).
Proof.
  intros Hwt. unfold next_date, detected.
  destruct (is_str (role msg) (u "assistant")) eqn:Hr.
  - destruct (Hwt Hr) as [t ->]. cbn. rewrite opt_truthy_extract.
    destruct (extract_date_from_text U t); reflexivity.
  - destruct (text msg); reflexivity.
Qed.

Lemma bucket_append_same d m g :
  bucket d (group_append d m g) = bucket d g ++ [m].
Proof.
  induction g as [|[d' ms] g IH]; cbn.
  - unfold str_eqb. rewrite bool_decide_eq_true_2 by reflexivity. reflexivity.
  - destruct (str_eqb d' d) eqn:E; cbn; rewrite E; [reflexivity|exact IH].
Qed.

Lemma bucket_append_other d d' m g :
  d' <> d -> bucket d' (group_append d m g) = bucket d' g.
Proof.
  intros Hne. induction g as [|[d0 ms] g IH]; cbn.
  - apply str_eqb_false in Hne. 
    destruct (str_eqb d d') eqn:E; [|reflexivity].
    apply str_eqb_true in E. apply str_eqb_false in Hne. congruence.
  - destruct (str_eqb d0 d) eqn:E; cbn.
    + apply str_eqb_true in E. subst d0.
      destruct (str_eqb d d') eqn:E'; [|reflexivity].
      apply str_eqb_true in E'. congruence.
    + rewrite IH. reflexivity.
Qed.

Lemma keys_group_append d m g :
  (group_append d m g).*1 = if bool_decide (d ∈ g.*1) then g.*1 else g.*1 ++ [d].
Proof.
  induction g as [|[d' ms] g IH]; cbn; [reflexivity|].
  destruct (str_eqb d' d) eqn:E; cbn.
  - apply str_eqb_true in E. subst.
    rewrite bool_decide_eq_true_2 by (left). reflexivity.
  - apply str_eqb_false in E. rewrite IH.
    destruct (bool_decide (d ∈ g.*1)) eqn:Hin.
    + apply bool_decide_eq_true in Hin.
      rewrite bool_decide_eq_true_2 by (right; exact Hin). reflexivity.
    + apply bool_decide_eq_false in Hin.
      rewrite bool_decide_eq_false_2; [reflexivity|].
      intros [?|?]%elem_of_cons; [congruence|contradiction].
Qed.

Lemma omap_ext_in {A B} (f g : A -> option B) (l : list A) :
  (forall x, x ∈ l -> f x = g x) -> omap f l = omap g l.
Proof.
  induction l as [|x l IH]; intros Hfg; [reflexivity|]. cbn.
  rewrite (Hfg x) by left. rewrite IH; [reflexivity|].
  intros y Hy. apply Hfg. right. exact Hy.
Qed.

Lemma cursor_at_snoc pre m :
  cursor_at U (pre ++ [m]) (length pre)
  = match detected U m with
    | Some d => Some d
    | None => last (omap (detected U) pre)
    end.
Proof.
  unfold cursor_at. rewrite take_ge by (rewrite length_app; simpl; lia).
  rewrite omap_app. cbn. destruct (detected U m).
  - apply last_snoc.
  - rewrite app_nil_r. reflexivity.
Qed.

Lemma assigned_snoc d pre m :
  assigned U d (pre ++ [m])
  = assigned U d pre
    ++ (if bool_decide (cursor_at U (pre ++ [m]) (length pre) = Some d)
        then [m] else []).
Proof.
  unfold assigned. rewrite length_app. cbn [length].
  rewrite Nat.add_1_r, seq_S, omap_app. cbn [omap]. f_equal.
  - apply omap_ext_in. intros i Hi%list_elem_of_In%in_seq.
    unfold cursor_at. rewrite take_app_le by lia.
    rewrite lookup_app_l by lia. reflexivity.
  - cbn. rewrite list_lookup_middle by reflexivity.
    destruct (bool_decide _); reflexivity.
Qed.

Lemma cursor_truthy l d :
  last (omap (detected U) l) = Some d -> opt_truthy (Some d) = true.
Proof.
  intros [l' Hl]%last_Some.
  assert (d ∈ omap (detected U) l) as Hin
    by (rewrite Hl; apply elem_of_app; right; left).
  apply list_elem_of_omap in Hin as (m & _ & Hm).
  eapply detected_truthy, Hm.
Qed.

Lemma seg_inv_step pre g m :
  seg_inv U pre g ->
  seg_inv U (pre ++ [m])
    (bucket_add (cursor_at U (pre ++ [m]) (length pre)) m g).
Proof.
  intros (Hnd & Hb & Hk). unfold bucket_add.
  destruct (cursor_at U (pre ++ [m]) (length pre)) as [d|] eqn:Hc.
  - assert (opt_truthy (Some d) = true) as ->.
    { rewrite cursor_at_snoc in Hc. destruct (detected U m) eqn:Hd.
      - injection Hc as <-. eapply detected_truthy, Hd.
      - eapply cursor_truthy, Hc. }
    split_and!.
    + rewrite keys_group_append. case_bool_decide; [assumption|].
      apply NoDup_app. split_and!; [assumption| |apply NoDup_singleton].
      intros x Hx ->%list_elem_of_singleton. contradiction.
    + intros d0. rewrite assigned_snoc, Hc. destruct (decide (d0 = d)) as [->|Hne].
      * rewrite bucket_append_same, Hb.
        rewrite bool_decide_eq_true_2 by reflexivity. reflexivity.
      * rewrite bucket_append_other, Hb by assumption.
        rewrite bool_decide_eq_false_2 by congruence.
        rewrite app_nil_r. reflexivity.
    + intros d0. destruct (decide (d0 = d)) as [->|Hne].
      * rewrite bucket_append_same, keys_group_append. split.
        -- intros _ Habs. destruct (bucket d g); discriminate.
        -- intros _. case_bool_decide; [assumption|].
           apply elem_of_app. right. left.
      * rewrite bucket_append_other, keys_group_append by assumption.
        rewrite <- Hk. case_bool_decide; [reflexivity|].
        rewrite elem_of_app, list_elem_of_singleton. tauto.
  - split_and!; [assumption| |assumption].
    intros d0. rewrite assigned_snoc, Hc, Hb.
    rewrite bool_decide_eq_false_2 by discriminate.
    rewrite app_nil_r. reflexivity.
Qed.

Lemma segment_from_spec msgs : forall pre g,
  Forall well_typed msgs ->
  seg_inv U pre g ->
  exists g', segment_from U (last (omap (detected U) pre)) g msgs = Ok g' /\
    seg_inv U (pre ++ msgs) g'.
Proof.
  induction msgs as [|m msgs IH]; intros pre g Hwt Hinv.
  - exists g. rewrite app_nil_r. split; [reflexivity|assumption].
  - apply Forall_cons in Hwt as [Hm Hwt].
    cbn [segment_from]. rewrite next_date_detected by assumption. cbn [bind].
    rewrite <- cursor_at_snoc.
    destruct (IH (pre ++ [m]) _ Hwt (seg_inv_step pre g m Hinv)) as (g' & Hg' & Hinv').
    exists g'. rewrite <- app_assoc in Hinv'. split; [|exact Hinv'].
    rewrite <- Hg'. f_equal.
    unfold cursor_at. rewrite take_ge by (rewrite length_app; simpl; lia).
    reflexivity.
Qed.

Lemma segment_from_skip pre : forall rest,
  Forall well_typed pre ->
  omap (detected U) pre = [] ->
  segment_from U None [] (pre ++ rest) = segment_from U None [] rest.
Proof.
  induction pre as [|m pre IH]; intros rest Hwt Hnone; [reflexivity|].
  apply Forall_cons in Hwt as [Hm Hwt].
  cbn [omap list_omap] in Hnone.
  change (omap (detected U) (m :: pre))
    with (match detected U m with
          | Some d => d :: omap (detected U) pre
          | None => omap (detected U) pre
          end) in Hnone.
  destruct (detected U m) eqn:Hd; [discriminate|].
  cbn [app segment_from]. rewrite next_date_detected by assumption.
  rewrite Hd. cbn [bind bucket_add]. apply IH; assumption.
Qed.

End SegmenterFacts.

(** C3: the segmenter puts every message in the bucket of the most recently
    detected date among the assistant messages up to and including it, in
    order; the keys are distinct and are the dates with a message; the
    messages before the first detected date are dropped; and the date a
    message introduces is the one of the first match in its text. *)
Theorem C3_segmenter U (msgs : list message) :
  Forall well_typed msgs ->
  exists g,
    segment U msgs = Ok g /\
    NoDup g.*1 /\
    (forall d, bucket d g = assigned U d msgs) /\
    (forall d, d ∈ g.*1 <-> assigned U d msgs <> []) /\
    (forall pre rest, msgs = pre ++ rest -> omap (detected U) pre = [] ->
       segment U rest = Ok g) /\
    (forall text y m d, first_date U text y m d ->
       exists vy vm vd,
         int U y = Some vy /\ int U m = Some vm /\ int U d = Some vd /\
         detected U (assistant text) = Some (date_key vy vm vd)).
Proof.
  intros Hwt.
  assert (seg_inv U [] []) as Hinit.
  { split_and!; [constructor|reflexivity|].
    intros d. cbn. rewrite elem_of_nil. tauto. }
  destruct (segment_from_spec U msgs [] [] Hwt Hinit) as (g & Hg & Hnd & Hb & Hk).
  change (segment U msgs = Ok g) in Hg. change ([] ++ msgs) with msgs in Hb.
  exists g. split_and!; try assumption.
  - intros d. rewrite <- Hb. apply Hk.
  - intros pre rest -> Hnone. unfold segment.
    rewrite <- Hg. symmetry. apply segment_from_skip; [|assumption].
    apply Forall_app in Hwt. apply Hwt.
  - intros text y m d Hf.
    destruct (extract_first_date U _ _ _ _ Hf) as (vy & vm & vd & Hy & Hm & Hd & He & _).
    exists vy, vm, vd. split_and!; try assumption.
Qed.

Lemma C3_segmenter_witness :
  exists g,
    segment ascii_db scenario = Ok g /\
    NoDup g.*1 /\
    (forall d, bucket d g = assigned ascii_db d scenario) /\
    (forall d, d ∈ g.*1 <-> assigned ascii_db d scenario <> []) /\
    (forall pre rest, scenario = pre ++ rest -> omap (detected ascii_db) pre = [] ->
       segment ascii_db rest = Ok g) /\
    (forall text y m d, first_date ascii_db text y m d ->
       exists vy vm vd,
         int ascii_db y = Some vy /\ int ascii_db m = Some vm /\
         int ascii_db d = Some vd /\
         detected ascii_db (assistant text) = Some (date_key vy vm vd)).
Proof.
  apply (C3_segmenter ascii_db scenario).
  repeat constructor; intros _; eexists; reflexivity.
Defined.

Example segment_scenario :
  segment ascii_db scenario
  = Ok [ (u "2024-01-01",
           [ assistant (u "2024-01-01: up 2%, and 2024-02-02 is the earnings call");
             user (u "and now?"); assistant (u "still up"); user (u "today?") ]);
         (u "2024-01-05", [ assistant (u "as of 2024/1/5 it is flat") ]) ].
Proof. vm_compute. reflexivity. Qed.

(** ** The segment summarizer *)

Lemma py_item_Ok v k x : py_item v k = Ok x <-> field v k x.
Proof.
  unfold field. split.
  - destruct v; try discriminate. cbn.
    destruct (lookup_key k kv) eqn:E; [|discriminate]. intros [= ->]. eauto.
  - intros (kv & -> & Hl). cbn. rewrite Hl. reflexivity.
Qed.

Lemma candidate_text_Ok U response s' :
  candidate_text U response = Ok s' ->
  exists s, has_candidate_text response s /\ s' = strip U s.
Proof.
  unfold candidate_text.
  destruct (py_item response (u "candidates")) as [cands|] eqn:E1; [|discriminate].
  cbn [bind].
  destruct (py_first cands) as [c0|] eqn:E2; [|discriminate]. cbn [bind].
  destruct (py_item c0 (u "content")) as [content|] eqn:E3; [|discriminate].
  cbn [bind].
  destruct (py_item content (u "parts")) as [parts|] eqn:E4; [|discriminate].
  cbn [bind].
  destruct (py_first parts) as [p0|] eqn:E5; [|discriminate]. cbn [bind].
  destruct (py_item p0 (u "text")) as [t|] eqn:E6; [|discriminate]. cbn [bind].
  destruct t as [| | |s| |]; try discriminate. cbn. intros [= <-].
  apply py_item_Ok in E1, E3, E4, E6.
  assert (first_item cands c0) as F2.
  { destruct cands as [| | |[|c cs]|[|x l]|]; try discriminate.
    - injection E2 as <-. destruct E3 as (kv & Hkv & _). discriminate.
    - injection E2 as ->. exists l. reflexivity. }
  assert (first_item parts p0) as F5.
  { destruct parts as [| | |[|c cs]|[|x l]|]; try discriminate.
    - injection E5 as <-. destruct E6 as (kv & Hkv & _). discriminate.
    - injection E5 as ->. exists l. reflexivity. }
  exists s. split; [|reflexivity].
  exists cands, c0, content, parts, p0. split_and!; assumption.
Qed.

Lemma summarize_fails U post text :
  call_fails post text -> summarize_with_gemini U post text = SUMMARY_ERROR.
Proof.
  unfold summarize_with_gemini.
  intros [[e ->] | (response & -> & Hn)]; [reflexivity|]. cbn [bind].
  destruct (candidate_text U response) as [s'|] eqn:E; [|reflexivity].
  apply candidate_text_Ok in E as (s & Hs & _). destruct (Hn s Hs).
Qed.

Section PipelineFacts.
Context (U : unicode_db) (H : html_lib) (post : str -> result json).

Lemma write_section_frame fs title path section fs' :
  write_section H fs title path section = Ok fs' ->
  forall p, p <> path -> fs' !! p = fs !! p.
Proof.
  unfold write_section. intros Hw p Hp.
  case_bool_decide.
  - destruct (read_text fs path); [|discriminate]. cbn in Hw.
    destruct (body_append H _ _); [|discriminate].
    injection Hw as <-. apply lookup_insert_ne. congruence.
  - injection Hw as <-. apply lookup_insert_ne. congruence.
Qed.

Lemma process_date_frame title path existing fs item fs' :
  process_date U H post title path existing fs item = Ok fs' ->
  forall p, p <> path -> fs' !! p = fs !! p.
Proof.
  unfold process_date. destruct item as [date msgs].
  case_bool_decide; [intros [= <-]; reflexivity|].
  destruct (transcript msgs); [|discriminate]. cbn [bind].
  apply write_section_frame.
Qed.

Lemma process_dates_frame title path existing items : forall fs fs',
  process_dates U H post title path existing fs items = Ok fs' ->
  forall p, p <> path -> fs' !! p = fs !! p.
Proof.
  induction items as [|item items IH]; intros fs fs'; cbn [process_dates].
  - intros [= <-]. reflexivity.
  - destruct (process_date U H post title path existing fs item) as [fs1|] eqn:E;
      [|discriminate]. cbn [bind].
    intros Hr p Hp. rewrite (IH _ _ Hr p Hp).
    eapply process_date_frame; eassumption.
Qed.

Lemma process_thread_frame fs thread title fs' :
  thread_title U thread = Ok title ->
  process_thread U H post fs thread = Ok fs' ->
  forall p, p <> html_path title -> fs' !! p = fs !! p.
Proof.
  unfold process_thread. intros ->. cbn [bind].
  destruct (negb (endswith title FILTER_SUFFIX)); [intros [= <-]; reflexivity|].
  destruct (extract_existing_dates U H fs (html_path title)); [|discriminate].
  cbn [bind]. destruct (read_messages thread); [|discriminate]. cbn [bind].
  destruct (segment U _); [|discriminate]. cbn [bind].
  apply process_dates_frame.
Qed.

End PipelineFacts.

(** C4: when the summarization call fails -- the request raises, or the
    response lacks the candidate text -- the summarizer returns the sentinel,
    the section of that date is the heading followed by the sentinel in the
    preformatted block, and the loop goes on with the remaining dates. *)
Theorem C4_failed_call_degrades U H post title path existing fs date msgs
    full_text items :
  date ∉ existing ->
  transcript msgs = Ok full_text ->
  call_fails post full_text ->
  summarize_with_gemini U post full_text = SUMMARY_ERROR /\
  process_date U H post title path existing fs (date, msgs)
    = write_section H fs title path (section_html date SUMMARY_ERROR) /\
  (fs !! path = None ->
   process_dates U H post title path existing fs ((date, msgs) :: items)
   = process_dates U H post title path existing
       (<[path := Text (HTML_TEMPLATE title (section_html date SUMMARY_ERROR))]> fs)
       items) /\
  (forall content s,
     fs !! path = Some (Text content) ->
     body_append H (parse H content) (parse H (section_html date SUMMARY_ERROR))
       = Some s ->
     process_dates U H post title path existing fs ((date, msgs) :: items)
     = process_dates U H post title path existing
         (<[path := Text (render H s)]> fs) items).
Proof.
  intros Hnew Ht Hfail.
  pose proof (summarize_fails U post full_text Hfail) as Hs.
  assert (process_date U H post title path existing fs (date, msgs)
          = write_section H fs title path (section_html date SUMMARY_ERROR)) as Hp.
  { unfold process_date. rewrite bool_decide_eq_false_2 by assumption.
    rewrite Ht. cbn [bind]. rewrite Hs. reflexivity. }
  split_and!; [assumption|assumption| |].
  - intros Hnone. cbn [process_dates]. rewrite Hp. unfold write_section.
    rewrite bool_decide_eq_false_2; [reflexivity|].
    rewrite Hnone. intros [? ?]; discriminate.
  - intros content s Hsome Happ. cbn [process_dates]. rewrite Hp.
    unfold write_section, read_text.
    rewrite bool_decide_eq_true_2 by (rewrite Hsome; eauto).
    rewrite Hsome. cbn [bind]. rewrite Happ. reflexivity.
Qed.

Lemma C4_failed_call_degrades_witness :
  let title := Sample.title in
  let path := html_path Sample.title in
  let date := u "2024-01-05" in
  let msgs := [assistant (u "2024/1/5 flat")] in
  let full_text := u "A: 2024/1/5 flat" in
  let run := process_dates ascii_db Mini.lib Sample.post_down title path ∅ in
  summarize_with_gemini ascii_db Sample.post_down full_text = SUMMARY_ERROR /\
  process_date ascii_db Mini.lib Sample.post_down title path ∅ ∅ (date, msgs)
    = write_section Mini.lib ∅ title path (section_html date SUMMARY_ERROR) /\
  ((∅ : store) !! path = None ->
   run ∅ [(date, msgs)]
   = run (<[path := Text (HTML_TEMPLATE title (section_html date SUMMARY_ERROR))]> ∅) []) /\
  (forall content s,
     (∅ : store) !! path = Some (Text content) ->
     body_append Mini.lib (parse Mini.lib content)
       (parse Mini.lib (section_html date SUMMARY_ERROR)) = Some s ->
     run ∅ [(date, msgs)] = run (<[path := Text (render Mini.lib s)]> ∅) []).
Proof.
  apply (C4_failed_call_degrades ascii_db Mini.lib Sample.post_down Sample.title
           (html_path Sample.title) ∅ ∅ (u "2024-01-05")
           [assistant (u "2024/1/5 flat")] (u "A: 2024/1/5 flat") []).
  - apply not_elem_of_empty.
  - vm_compute. reflexivity.
  - left. exists OtherError. reflexivity.
Defined.

Example summarize_malformed_response :
  summarize_with_gemini ascii_db Sample.post_empty (u "A: 2024/1/5 flat")
  = SUMMARY_ERROR.
Proof. vm_compute. reflexivity. Qed.

Example summarize_ok :
  summarize_with_gemini ascii_db Sample.post_ok (u "A: 2024/1/5 flat") = u "S&P up".
Proof. vm_compute. reflexivity. Qed.

(** ** The conversation reader *)

(** C6, the divergence: a message without author makes the reader raise
    KeyError -- whatever else the message holds -- and the run of the
    thread stops with it. *)
Theorem C6_missing_author_raises :
  (forall node kv,
     py_get node (u "message") JNull = Ok (JObj kv) -> kv <> [] ->
     lookup_key (u "author") kv = None ->
     read_node node = Raise KeyError) /\
  read_node Sample.node_without_author = Raise KeyError /\
  process_thread ascii_db Mini.lib Sample.post_ok ∅ Sample.broken_thread
    = Raise KeyError.
Proof.
  split; [|split; vm_compute; reflexivity].
  intros node kv Hm Hkv Hauthor. unfold read_node. rewrite Hm. cbn [bind].
  destruct kv as [|p kv]; [congruence|]. cbn [truthy negb py_item].
  rewrite Hauthor. reflexivity.
Qed.

(** The omissions the reader does make silently. *)
Lemma read_node_no_message node msg :
  py_get node (u "message") JNull = Ok msg -> truthy msg = false ->
  read_node node = Ok None.
Proof. intros Hm Ht. unfold read_node. rewrite Hm. cbn [bind]. rewrite Ht. reflexivity. Qed.

Example read_node_no_parts :
  read_node (JObj [(u "message", JObj [(u "author", JObj [(u "role", JStr (u "user"))])])])
  = Ok None.
Proof. vm_compute. reflexivity. Qed.

Example read_node_nested_text :
  read_node (JObj [(u "message",
    JObj [ (u "author", JObj [(u "role", JStr (u "user"))]);
           (u "content", JObj [(u "parts", JArr [JObj [(u "kind", JStr (u "x"))]])]) ])])
  = Ok (Some (Message (JStr (u "user")) (JStr []))).
Proof. vm_compute. reflexivity. Qed.

(** ** The document path *)

Lemma startswith_nil s : startswith s [] = true.
Proof. destruct s; reflexivity. Qed.

Lemma startswith_length s : forall p, startswith s p = true -> (length p <= length s)%nat.
Proof.
  induction s as [|c s IH]; intros [|y p]; cbn; try discriminate; try lia.
  intros [_ Hs]%andb_prop. apply IH in Hs. lia.
Qed.

Lemma endswith_length s p : endswith s p = true -> (length p <= length s)%nat.
Proof.
  unfold endswith. intros Hs%startswith_length. rewrite !length_rev in Hs. exact Hs.
Qed.

Lemma html_path_relative title :
  (0 < length title)%nat -> startswith title [47] = false ->
  html_path title = OUTPUT_DIR ++ [47] ++ title ++ u ".html".
Proof.
  intros Hlen Hs. unfold html_path, path_join.
  destruct title as [|c title]; [simpl in Hlen; lia|].
  cbn [app startswith] in *. rewrite !startswith_nil in *.
  rewrite Hs. reflexivity.
Qed.

Lemma stem_html title : (0 < length title)%nat -> stem (title ++ u ".html") = title.
Proof.
  intros Hlen. unfold stem. rewrite bool_decide_eq_false_2.
  - rewrite length_app. cbn [u length].
    replace (length title + 5 - 5)%nat with (length title) by lia.
    apply take_app_length.
  - intros Heq. apply (f_equal length) in Heq. rewrite length_app in Heq.
    cbn in Heq. lia.
Qed.

(** C5 (as amended): the document of an in-scope topic is the file of the
    output directory named by the title as it is, filter suffix included,
    followed by [.html] (for a title that does not start with a slash); no
    other file is touched while the topic is processed. *)
Theorem C5_document_path U H post fs thread title fs' :
  thread_title U thread = Ok title ->
  endswith title FILTER_SUFFIX = true ->
  startswith title [47] = false ->
  process_thread U H post fs thread = Ok fs' ->
  html_path title = OUTPUT_DIR ++ [47] ++ title ++ u ".html" /\
  stem (title ++ u ".html") = title /\
  (forall p, p <> html_path title -> fs' !! p = fs !! p).
Proof.
  intros Ht Hsuf Hrel Hrun.
  assert (0 < length title)%nat as Hlen.
  { apply endswith_length in Hsuf. cbn in Hsuf. lia. }
  split_and!.
  - apply html_path_relative; assumption.
  - apply stem_html, Hlen.
  - eapply process_thread_frame; eassumption.
Qed.

Lemma C5_document_path_witness :
  exists fs',
    process_thread ascii_db Mini.lib Sample.post_ok ∅ Sample.thread = Ok fs' /\
    html_path Sample.title = OUTPUT_DIR ++ [47] ++ Sample.title ++ u ".html" /\
    stem (Sample.title ++ u ".html") = Sample.title /\
    (forall p, p <> html_path Sample.title -> fs' !! p = (∅ : store) !! p).
Proof.
  eexists. split; [vm_compute; reflexivity|].
  apply (C5_document_path ascii_db Mini.lib Sample.post_ok ∅ Sample.thread Sample.title).
  - vm_compute. reflexivity.
  - vm_compute. reflexivity.
  - vm_compute. reflexivity.
  - vm_compute. reflexivity.
Defined.

(** The claim as worded fails: the file name keeps the filter suffix. *)
Lemma C5_counterexample :
  endswith Sample.title FILTER_SUFFIX = true /\
  strip_suffix Sample.title = u "Foo" /\
  exists fs',
    process_thread ascii_db Mini.lib Sample.post_ok ∅ Sample.thread = Ok fs' /\
    is_Some (fs' !! (u "output/Foo" ++ FILTER_SUFFIX ++ u ".html")) /\
    fs' !! path_join OUTPUT_DIR (strip_suffix Sample.title ++ u ".html") = None.
Proof.
  split; [vm_compute; reflexivity|]. split; [vm_compute; reflexivity|].
  eexists. split; [vm_compute; reflexivity|].
  split; [eexists|]; vm_compute; reflexivity.
Qed.

(** ** The index builder *)

Section IndexFacts.
Context (U : unicode_db) (H : html_lib).

Lemma index_entry_local fs fs2 name :
  fs2 !! (OUTPUT_DIR ++ [47] ++ name) = fs !! (OUTPUT_DIR ++ [47] ++ name) ->
  index_entry U H fs2 name = index_entry U H fs name.
Proof.
  intros Heq. unfold index_entry, extract_summary_lines, summary_lines_body, read_text.
  rewrite Heq. reflexivity.
Qed.

End IndexFacts.

Example labelled_lines_of_summary :
  let text := utf8 "最新の状況（40字程度）：
上昇中

いつ買うべきか：
押し目で" in
  labelled_line ascii_db LATEST_STATUS text = utf8 "上昇中" /\
  labelled_line ascii_db TIMING_ADVICE text = utf8 "押し目で".
Proof. split; vm_compute; reflexivity. Qed.

Example labelled_line_skips_blank_lines :
  labelled_line ascii_db LATEST_STATUS (utf8 "最新の状況（a）b


foo
bar") = u "foo".
Proof. vm_compute. reflexivity. Qed.

Example labelled_line_missing :
  labelled_line ascii_db TIMING_ADVICE (utf8 "最新の状況: up") = NOT_RECORDED.
Proof. vm_compute. reflexivity. Qed.

(** C7 (as amended): a document that fails to parse is listed with both
    placeholders; every document of the directory has its entry, and the
    entry of a document depends on that document alone. *)
Theorem C7_unparsable_document_listed U H fs name e :
  summary_lines_body U H fs (OUTPUT_DIR ++ [47] ++ name) = Raise e ->
  index_entry U H fs name
    = list_item name (remove_all FILTER_SUFFIX 0 (stem name))
        NOT_RECORDED NOT_RECORDED /\
  (name ∈ glob_html fs -> index_entry U H fs name ∈ index_sections U H fs) /\
  length (index_sections U H fs) = length (glob_html fs) /\
  (forall fs2 name',
     fs2 !! (OUTPUT_DIR ++ [47] ++ name') = fs !! (OUTPUT_DIR ++ [47] ++ name') ->
     index_entry U H fs2 name' = index_entry U H fs name').
Proof.
  intros Hraise. split_and!.
  - unfold index_entry, extract_summary_lines. rewrite Hraise. reflexivity.
  - intros Hin. unfold index_sections. apply list_elem_of_fmap. eauto.
  - unfold index_sections. apply length_fmap.
  - intros fs2 name'. apply index_entry_local.
Qed.

Lemma C7_unparsable_document_listed_witness :
  index_entry ascii_db Mini.lib Sample.unreadable (u "bad.html")
    = list_item (u "bad.html") (remove_all FILTER_SUFFIX 0 (stem (u "bad.html")))
        NOT_RECORDED NOT_RECORDED /\
  (u "bad.html" ∈ glob_html Sample.unreadable ->
   index_entry ascii_db Mini.lib Sample.unreadable (u "bad.html")
     ∈ index_sections ascii_db Mini.lib Sample.unreadable) /\
  length (index_sections ascii_db Mini.lib Sample.unreadable)
    = length (glob_html Sample.unreadable) /\
  (forall fs2 name',
     fs2 !! (OUTPUT_DIR ++ [47] ++ name')
       = Sample.unreadable !! (OUTPUT_DIR ++ [47] ++ name') ->
     index_entry ascii_db Mini.lib fs2 name'
       = index_entry ascii_db Mini.lib Sample.unreadable name').
Proof.
  apply (C7_unparsable_document_listed ascii_db Mini.lib Sample.unreadable
           (u "bad.html") UnicodeDecodeError).
  vm_compute. reflexivity.
Defined.

(** The claim as worded fails: the document that cannot be parsed has an
    entry in the list. *)
Lemma C7_counterexample :
  summary_lines_body ascii_db Mini.lib Sample.unreadable (u "output/bad.html")
    = Raise UnicodeDecodeError /\
  index_sections ascii_db Mini.lib Sample.unreadable
    = [ list_item (u "bad.html") (u "bad") NOT_RECORDED NOT_RECORDED ].
Proof. split; vm_compute; reflexivity. Qed.

(** The date scan of the same directory is not guarded: the index page is
    not written at all. *)
Example index_aborts_on_unreadable :
  generate_index_html ascii_db Mini.lib Sample.unreadable = Raise UnicodeDecodeError.
Proof. vm_compute. reflexivity. Qed.

(** *** The order of strings *)

Lemma str_ltb_irrefl a : str_ltb a a = false.
Proof.
  induction a as [|x a IH]; [reflexivity|]. cbn.
  rewrite N.ltb_irrefl, N.eqb_refl, IH. reflexivity.
Qed.

Lemma str_ltb_trans a : forall b c,
  str_ltb a b = true -> str_ltb b c = true -> str_ltb a c = true.
Proof.
  induction a as [|x a IH]; intros [|y b] [|z c]; cbn; try discriminate; try reflexivity.
  intros H1 H2.
  apply orb_true_iff in H1 as [H1|[H1 H1']%andb_true_iff];
    apply orb_true_iff in H2 as [H2|[H2 H2']%andb_true_iff];
    try apply N.ltb_lt in H1; try apply N.ltb_lt in H2;
    try apply N.eqb_eq in H1; try apply N.eqb_eq in H2.
  - apply orb_true_iff. left. apply N.ltb_lt. lia.
  - apply orb_true_iff. left. apply N.ltb_lt. lia.
  - apply orb_true_iff. left. apply N.ltb_lt. lia.
  - apply orb_true_iff. right. apply andb_true_iff. split.
    + apply N.eqb_eq. lia.
    + eapply IH; eassumption.
Qed.

Lemma str_ltb_connex a : forall b,
  str_ltb a b = false -> str_ltb b a = false -> a = b.
Proof.
  induction a as [|x a IH]; intros [|y b]; cbn; try discriminate; try reflexivity.
  intros H1 H2.
  apply orb_false_iff in H1 as [H1 H1']. apply orb_false_iff in H2 as [H2 H2'].
  apply N.ltb_ge in H1, H2. assert (x = y) as -> by lia.
  rewrite N.eqb_refl in H1', H2'. cbn in H1', H2'.
  f_equal. apply IH; assumption.
Qed.

Lemma str_leb_refl a : str_leb a a = true.
Proof. unfold str_leb. rewrite str_ltb_irrefl. reflexivity. Qed.

Lemma str_leb_trans a b c :
  str_leb a b = true -> str_leb b c = true -> str_leb a c = true.
Proof.
  unfold str_leb. intros H1%negb_true_iff H2%negb_true_iff. apply negb_true_iff.
  destruct (str_ltb c a) eqn:Hca; [|reflexivity].
  destruct (str_ltb a b) eqn:Hab.
  - rewrite (str_ltb_trans _ _ _ Hca Hab) in H2. discriminate.
  - rewrite (str_ltb_connex _ _ Hab H1) in Hca. congruence.
Qed.

Lemma str_ltb_leb a b : str_ltb a b = true -> str_leb a b = true.
Proof.
  intros Hab. unfold str_leb. apply negb_true_iff.
  destruct (str_ltb b a) eqn:Hba; [|reflexivity].
  pose proof (str_ltb_trans _ _ _ Hab Hba) as Haa.
  rewrite str_ltb_irrefl in Haa. discriminate.
Qed.

Lemma str_leb_nil a : str_leb [] a = true.
Proof. destruct a; reflexivity. Qed.

Lemma str_leb_nil_inv a : str_leb a [] = true -> a = [].
Proof. destruct a; [reflexivity|discriminate]. Qed.

Lemma str_max_l a b : str_leb a (str_max a b) = true.
Proof.
  unfold str_max. destruct (str_ltb a b) eqn:E;
    [apply str_ltb_leb, E|apply str_leb_refl].
Qed.

Lemma str_max_r a b : str_leb b (str_max a b) = true.
Proof.
  unfold str_max. destruct (str_ltb a b) eqn:E; [apply str_leb_refl|].
  unfold str_leb. rewrite E. reflexivity.
Qed.

Lemma str_max_cases a b : str_max a b = a \/ str_max a b = b.
Proof. unfold str_max. destruct (str_ltb a b); auto. Qed.

Lemma foldl_str_max ds : forall d,
  str_leb d (foldl str_max d ds) = true /\
  (forall x, x ∈ ds -> str_leb x (foldl str_max d ds) = true) /\
  (foldl str_max d ds = d \/ foldl str_max d ds ∈ ds).
Proof.
  induction ds as [|y ds IH]; intros d; cbn [foldl].
  - split_and!; [apply str_leb_refl| |left; reflexivity].
    intros x Hx. apply elem_of_nil in Hx. destruct Hx.
  - destruct (IH (str_max d y)) as (H1 & H2 & H3). split_and!.
    + eapply str_leb_trans; [apply str_max_l|exact H1].
    + intros x [->|Hx]%elem_of_cons; [|apply H2, Hx].
      eapply str_leb_trans; [apply str_max_r|exact H1].
    + destruct H3 as [H3|H3]; [|right; right; exact H3].
      rewrite H3. destruct (str_max_cases d y) as [->| ->]; [left; reflexivity|].
      right. left.
Qed.

Lemma py_max_spec ds :
  ds <> [] ->
  (forall x, x ∈ ds -> str_leb x (py_max ds) = true) /\ py_max ds ∈ ds.
Proof.
  destruct ds as [|d ds]; [congruence|]. intros _. cbn [py_max].
  destruct (foldl_str_max ds d) as (H1 & H2 & H3). split.
  - intros x [->|Hx]%elem_of_cons; [exact H1|apply H2, Hx].
  - destruct H3 as [->|H3]; [left|right; exact H3].
Qed.

(** *** The scan of the headings *)

Section HeadingScan.
Context (U : unicode_db).

Lemma match_here_h2_inv s caps rest :
  match_here U h2_date_re s = Some (caps, rest) ->
  exists d, caps = [d] /\ date_shape U d /\
    s = u "<h2>" ++ d ++ u "</h2>" ++ rest.
Proof.
  unfold match_here, h2_date_re.
  change (u "<h2>") with [60; 104; 50; 62].
  change (u "</h2>") with [60; 47; 104; 50; 62].
  cbn [seqs lits rmatch].
  do 19 (destruct s as [|? s]; [split_ifs; discriminate|]).
  split_ifs. take_norm. intros [= <- <-].
  repeat match goal with
  | H : (_ =? _) = true |- _ => apply N.eqb_eq in H; subst
  | H : cls_mem U Digit _ = true |- _ => apply cls_digit_iff in H
  end.
  eexists. split; [reflexivity|]. split; [|reflexivity].
  do 8 eexists. split; [reflexivity|]. repeat constructor; assumption.
Qed.

Lemma match_here_h2 d rest :
  date_shape U d ->
  match_here U h2_date_re (u "<h2>" ++ d ++ u "</h2>" ++ rest) = Some ([d], rest).
Proof.
  intros (y1 & y2 & y3 & y4 & m1 & m2 & d1 & d2 & -> & Hdig).
  repeat match goal with
  | H : Forall _ (_ :: _) |- _ => apply Forall_cons in H as [?%cls_digit_iff H]
  end.
  unfold match_here, h2_date_re.
  change (u "<h2>") with [60; 104; 50; 62].
  change (u "</h2>") with [60; 47; 104; 50; 62].
  cbn [seqs lits rmatch app].
  repeat match goal with
  | H : cls_mem U Digit _ = true |- _ => rewrite H; clear H
  end.
  rewrite !N.eqb_refl. take_norm. reflexivity.
Qed.

Lemma not_digit_60 : ~ is_digit U 60.
Proof.
  unfold is_digit. rewrite decimal_ascii by lia. intros [? ?]; discriminate.
Qed.

(** Two headings cannot overlap. *)
Lemma headings_apart d0 d k k' rest b :
  date_shape U d0 -> k <> [] -> k' <> [] ->
  u "<h2>" ++ d0 ++ u "</h2>" = k ++ k' ->
  u "<h2>" ++ d ++ u "</h2>" ++ b = k' ++ rest ->
  False.
Proof.
  intros (y1 & y2 & y3 & y4 & m1 & m2 & d1 & d2 & -> & Hdig) Hk Hk'.
  change (u "<h2>") with [60; 104; 50; 62].
  change (u "</h2>") with [60; 47; 104; 50; 62].
  cbn [app]. intros Heq Hnext.
  destruct k as [|x k]; [congruence|].
  do 19 (destruct k as [|? k];
         [cbn [app] in Heq; simplify_eq; cbn [app] in Hnext; simplify_eq;
          try congruence;
          repeat match goal with
          | H : Forall _ (_ :: _) |- _ => apply Forall_cons in H as [? H]
          end;
          exfalso; eapply not_digit_60; eassumption
         |]).
  cbn [app] in Heq. simplify_eq.
Qed.

Lemma findall_fuel_sound n : forall s d,
  d ∈ findall_fuel U n h2_date_re s -> is_heading_date U s d.
Proof.
  induction n as [|n IH]; intros s d; cbn [findall_fuel].
  - intros Hd. apply elem_of_nil in Hd. destruct Hd.
  - destruct (search U h2_date_re s) as [[caps rest]|] eqn:E.
    + apply search_Some_inv in E as (pre & s0 & -> & Hm & _).
      apply match_here_h2_inv in Hm as (d0 & -> & Hshape & ->). cbn [head default].
      intros [->|Hd]%elem_of_cons.
      * split; [assumption|]. exists pre, rest. reflexivity.
      * apply IH in Hd as (Hs & a & b & ->). split; [assumption|].
        exists (pre ++ u "<h2>" ++ d0 ++ u "</h2>" ++ a), b.
        rewrite <- !app_assoc. reflexivity.
    + intros Hd. apply elem_of_nil in Hd. destruct Hd.
Qed.

Lemma search_finds r a s x :
  match_here U r s = Some x -> exists y, search U r (a ++ s) = Some y.
Proof.
  intros Hm. induction a as [|c a IH]; cbn [app].
  - rewrite (search_here U _ _ _ Hm). eauto.
  - cbn [search]. destruct (match_here U r (c :: a ++ s)); eauto.
Qed.

Lemma heading_length d : date_shape U d -> length (u "<h2>" ++ d ++ u "</h2>") = 19%nat.
Proof. intros (? & ? & ? & ? & ? & ? & ? & ? & -> & _). reflexivity. Qed.

Lemma findall_fuel_complete n : forall s a d b,
  (length s <= n)%nat ->
  date_shape U d ->
  s = a ++ u "<h2>" ++ d ++ u "</h2>" ++ b ->
  d ∈ findall_fuel U n h2_date_re s.
Proof.
  induction n as [|n IH]; intros s a d b Hlen Hshape Hs.
  - apply (f_equal length) in Hs. rewrite !length_app in Hs.
    destruct Hshape as (? & ? & ? & ? & ? & ? & ? & ? & -> & _). cbn in Hs. lia.
  - cbn [findall_fuel].
    pose proof (match_here_h2 d b Hshape) as Hhere.
    destruct (search_finds h2_date_re a _ _ Hhere) as [[caps rest] E].
    rewrite <- Hs in E. rewrite E.
    apply search_Some_inv in E as (pre & s0 & Hs' & Hm & Hleft).
    apply match_here_h2_inv in Hm as (d0 & -> & Hshape0 & ->). cbn [head default].
    assert (length rest <= n)%nat as Hrest.
    { apply (f_equal length) in Hs'. rewrite length_app, app_assoc, app_assoc in Hs'.
      rewrite length_app, <- app_assoc, (heading_length d0 Hshape0) in Hs'. lia. }
    assert (forall r r', u "<h2>" ++ d ++ u "</h2>" ++ r = u "<h2>" ++ d0 ++ u "</h2>" ++ r' ->
            d = d0) as Hsame.
    { destruct Hshape as (? & ? & ? & ? & ? & ? & ? & ? & -> & _).
      destruct Hshape0 as (? & ? & ? & ? & ? & ? & ? & ? & -> & _).
      intros r r' Heq. cbn in Heq. simplify_eq. reflexivity. }
    rewrite Hs in Hs'. clear Hlen.
    apply app_eq_inv in Hs' as [(k & Ha & Hk)|(k & Hpre & Hk)].
    + (* the match starts at or before the occurrence *)
      destruct k as [|c k].
      * cbn [app] in Hk. rewrite (Hsame _ _ (eq_sym Hk)). left.
      * right. rewrite (app_assoc (u "<h2>") d0), (app_assoc (u "<h2>" ++ d0)) in Hk.
        apply app_eq_inv in Hk as [(k' & Hk1 & Hk2)|(k' & Hk1 & Hk2)].
        -- destruct k' as [|c' k'].
           ++ cbn [app] in Hk2. apply (IH rest [] d b); [assumption..|].
              rewrite Hk2. reflexivity.
           ++ exfalso.
              apply (headings_apart d0 d (c :: k) (c' :: k') rest b Hshape0);
                [discriminate|discriminate| |].
              ** rewrite <- app_assoc in Hk1. exact Hk1.
              ** exact Hk2.
        -- apply (IH rest k' d b); assumption.
    + (* the occurrence would start before the leftmost match *)
      destruct k as [|c k].
      * cbn [app] in Hk. rewrite (Hsame _ _ Hk). left.
      * exfalso. specialize (Hleft (length a)).
        rewrite Hs, drop_app_length, Hhere in Hleft.
        assert (length a < length pre)%nat as Hlt
          by (rewrite Hpre, length_app; simpl; lia).
        specialize (Hleft Hlt). discriminate.
Qed.

Lemma findall_h2_dates content d :
  d ∈ findall U h2_date_re content <-> is_heading_date U content d.
Proof.
  split; [apply findall_fuel_sound|].
  intros (Hshape & a & b & ->).
  eapply findall_fuel_complete; [|eassumption|reflexivity]. lia.
Qed.

End HeadingScan.

Section LatestFacts.
Context (U : unicode_db).

Lemma latest_step_spec fs latest name r :
  latest_step U fs latest name = Ok r ->
  str_leb latest r = true /\
  (forall x, x ∈ dates_of U fs name -> str_leb x r = true) /\
  (r = latest \/ r ∈ dates_of U fs name).
Proof.
  unfold latest_step, dates_of.
  destruct (read_text fs (OUTPUT_DIR ++ [47] ++ name)) as [content|]; [|discriminate].
  cbn [bind]. destruct (findall U h2_date_re content) as [|d ds] eqn:E.
  - intros [= <-]. split_and!; [apply str_leb_refl| |left; reflexivity].
    intros x Hx. apply elem_of_nil in Hx. destruct Hx.
  - destruct (py_max_spec (d :: ds)) as [Hub Hin]; [discriminate|].
    generalize dependent (py_max (d :: ds)). intros newest Hub Hin.
    destruct (str_ltb latest newest) eqn:Hlt; intros [= <-].
    + split_and!; [apply str_ltb_leb, Hlt|exact Hub|right; exact Hin].
    + split_and!; [apply str_leb_refl| |left; reflexivity].
      intros x Hx. eapply str_leb_trans; [apply Hub, Hx|].
      unfold str_leb. rewrite Hlt. reflexivity.
Qed.

Lemma latest_from_spec fs names : forall latest r,
  latest_from U fs latest names = Ok r ->
  str_leb latest r = true /\
  (forall x, x ∈ mjoin (dates_of U fs <$> names) -> str_leb x r = true) /\
  (r = latest \/ r ∈ mjoin (dates_of U fs <$> names)).
Proof.
  induction names as [|name names IH]; intros latest r; cbn [latest_from].
  - intros [= <-]. split_and!; [apply str_leb_refl| |left; reflexivity].
    intros x Hx. apply elem_of_nil in Hx. destruct Hx.
  - destruct (latest_step U fs latest name) as [l1|] eqn:E; [|discriminate].
    cbn [bind]. intros Hr.
    apply latest_step_spec in E as (Ha & Hb & Hc).
    apply IH in Hr as (Ha' & Hb' & Hc').
    cbn [fmap list_fmap mjoin list_join]. split_and!.
    + eapply str_leb_trans; eassumption.
    + intros x [Hx|Hx]%elem_of_app; [|apply Hb', Hx].
      eapply str_leb_trans; [apply Hb, Hx|exact Ha'].
    + destruct Hc' as [->|Hc']; [|right; apply elem_of_app; right; exact Hc'].
      destruct Hc as [->|Hc]; [left; reflexivity|].
      right. apply elem_of_app. left. exact Hc.
Qed.

Lemma latest_from_total fs names : forall latest,
  (forall name, name ∈ names ->
     exists content, fs !! (OUTPUT_DIR ++ [47] ++ name) = Some (Text content)) ->
  exists r, latest_from U fs latest names = Ok r.
Proof.
  induction names as [|name names IH]; intros latest Hread; cbn [latest_from].
  - eauto.
  - destruct (Hread name) as [content Hc]; [left|].
    unfold latest_step, read_text. rewrite Hc. cbn [bind].
    destruct (findall U h2_date_re content); cbn [bind];
      apply IH; intros n Hn; apply Hread; right; exact Hn.
Qed.

End LatestFacts.

Lemma heading_dates_spec U fs d :
  d ∈ heading_dates U fs <->
  exists name content,
    name ∈ glob_html fs /\
    fs !! (OUTPUT_DIR ++ [47] ++ name) = Some (Text content) /\
    is_heading_date U content d.
Proof.
  unfold heading_dates. rewrite list_elem_of_join. split.
  - intros (l & Hd & (name & -> & Hname)%list_elem_of_fmap).
    unfold dates_of, read_text in Hd.
    destruct (fs !! (OUTPUT_DIR ++ [47] ++ name)) as [[content|]|] eqn:E;
      try (apply elem_of_nil in Hd; destruct Hd).
    exists name, content. split_and!; [assumption|exact E|].
    apply findall_h2_dates, Hd.
  - intros (name & content & Hname & Hc & Hd).
    exists (dates_of U fs name). split.
    + unfold dates_of, read_text. rewrite Hc. apply findall_h2_dates, Hd.
    + apply list_elem_of_fmap. eauto.
Qed.



Example latest_of_docs :
  get_latest_update_date ascii_db Sample.docs = Ok (u "2024-02-01") /\
  heading_dates ascii_db Sample.docs
    = [u "2024-01-05"; u "2023-12-31"; u "2024-02-01"].
Proof. split; vm_compute; reflexivity. Qed.

Example latest_of_empty : get_latest_update_date ascii_db ∅ = Ok [].
Proof. vm_compute. reflexivity. Qed.

(** ** Prefixes, and the characters of a date key *)

Lemma startswith_app_mono s : forall p r,
  startswith s p = true -> startswith (s ++ r) p = true.
Proof.
  induction s as [|c s IH]; intros [|y p] r; cbn [app startswith]; try discriminate.
  - intros _. apply startswith_nil.
  - intros _. reflexivity.
  - intros [-> Hs]%andb_prop. rewrite (IH _ _ Hs). reflexivity.
Qed.

Lemma startswith_self p : forall r, startswith (p ++ r) p = true.
Proof.
  induction p as [|c p IH]; intros r; [apply startswith_nil|].
  cbn [app startswith]. rewrite N.eqb_refl, IH. reflexivity.
Qed.

Lemma date_key_chars d :
  is_date_key d = true -> Forall (fun c => 45 <= c <= 57) d.
Proof.
  destruct d as [|c1 [|c2 [|c3 [|c4 [|c5 [|c6 [|c7 [|c8 [|c9 [|c10 [|c11 d]]]]]]]]]]];
    try discriminate.
  unfold is_date_key, ascii_digit. cbn [forallb].
  intros H. repeat (apply andb_prop in H as [H ?]).
  repeat match goal with
  | H : (_ && _) = true |- _ => apply andb_prop in H as [? ?]
  | H : (_ <=? _) = true |- _ => apply N.leb_le in H
  | H : (_ =? _) = true |- _ => apply N.eqb_eq in H
  end.
  repeat constructor; lia.
Qed.

Lemma date_key_no_char d c :
  is_date_key d = true -> (c < 45 \/ 57 < c) -> c ∉ d.
Proof.
  intros Hd Hc Hin. apply date_key_chars in Hd.
  rewrite Forall_forall in Hd. specialize (Hd c Hin). lia.
Qed.

(** ** The small HTML library satisfies the assumptions *)

Module MiniFacts.
Import Mini.

Lemma unescape_unfold c t :
  unescape (c :: t)
  = if (c =? 38) && startswith t AMP then 38 :: unescape (drop 4 t)
    else c :: unescape t.
Proof.
  destruct t as [|c1 [|c2 [|c3 [|c4 t]]]]; cbn [unescape startswith AMP drop];
    rewrite ?andb_false_r; try reflexivity.
  rewrite startswith_nil, !andb_true_r, <- !andb_assoc. reflexivity.
Qed.

Lemma unescape_cons_ne c t : c <> 38 -> unescape (c :: t) = c :: unescape t.
Proof.
  intros Hc. rewrite unescape_unfold.
  apply N.eqb_neq in Hc. rewrite Hc. reflexivity.
Qed.

Lemma unescape_escape s : unescape (escape s) = s.
Proof.
  induction s as [|c s IH]; [reflexivity|]. cbn [escape].
  destruct (c =? 38) eqn:Hc.
  - apply N.eqb_eq in Hc. subst c. rewrite unescape_unfold.
    change (AMP ++ escape s) with (97 :: 109 :: 112 :: 59 :: escape s).
    cbn [startswith AMP drop]. rewrite startswith_nil, !N.eqb_refl.
    cbn [andb]. rewrite drop_0, IH. reflexivity.
  - apply N.eqb_neq in Hc. rewrite unescape_cons_ne, IH by assumption. reflexivity.
Qed.

Lemma unescape_plain p t : 38 ∉ p -> unescape (p ++ t) = p ++ unescape t.
Proof.
  induction p as [|c p IH]; intros Hp; [reflexivity|].
  apply not_elem_of_cons in Hp as [Hc Hp]. cbn [app].
  rewrite unescape_cons_ne, IH by congruence. reflexivity.
Qed.

Lemma startswith_app_tag a b p :
  60 ∉ p -> p <> [] -> startswith (a ++ 60 :: b) p = startswith a p.
Proof.
  revert p. induction a as [|c a IH]; intros [|y p] Hp Hne; try congruence.
  - cbn [app startswith]. apply not_elem_of_cons in Hp as [Hy _].
    destruct (60 =? y) eqn:E; [apply N.eqb_eq in E; congruence|reflexivity].
  - cbn [app startswith]. apply not_elem_of_cons in Hp as [_ Hp].
    destruct p as [|z p].
    + rewrite !startswith_nil. reflexivity.
    + rewrite IH by (assumption || discriminate). reflexivity.
Qed.

Lemma amp_no_tag : 60 ∉ AMP.
Proof. apply (bool_decide_unpack _). vm_compute. exact I. Qed.

Lemma unescape_app_tag_len n : forall a b,
  (length a <= n)%nat ->
  unescape (a ++ 60 :: b) = unescape a ++ 60 :: unescape b.
Proof.
  induction n as [|n IH]; intros a b Hlen.
  - destruct a; [|simpl in Hlen; lia]. cbn [app].
    apply unescape_cons_ne. discriminate.
  - destruct a as [|c a]; [cbn [app]; apply unescape_cons_ne; discriminate|].
    cbn [app]. rewrite !unescape_unfold.
    rewrite startswith_app_tag by (exact amp_no_tag || discriminate).
    destruct ((c =? 38) && startswith a AMP) eqn:E.
    + apply andb_prop in E as [_ E]. apply startswith_length in E. cbn in E.
      rewrite drop_app_le by lia. rewrite IH; [reflexivity|].
      rewrite length_drop. simpl in Hlen. lia.
    + rewrite IH by (simpl in Hlen; lia). reflexivity.
Qed.

Lemma unescape_app_tag a b :
  unescape (a ++ 60 :: b) = unescape a ++ 60 :: unescape b.
Proof. apply (unescape_app_tag_len (length a)). lia. Qed.

Lemma heading_text_mono s t r :
  heading_text s = Some t -> heading_text (s ++ r) = Some t.
Proof.
  revert t. induction s as [|c s IH]; intros t; [discriminate|].
  cbn [app heading_text]. destruct (c =? 60).
  - change (c :: s ++ r) with ((c :: s) ++ r).
    destruct (startswith (c :: s) H2_CLOSE) eqn:E; [|discriminate].
    rewrite (startswith_app_mono _ _ r E). tauto.
  - destruct (heading_text s) as [t'|]; [|discriminate].
    rewrite (IH t' eq_refl). tauto.
Qed.

Lemma heading_text_intro t r :
  60 ∉ t -> heading_text (t ++ H2_CLOSE ++ r) = Some t.
Proof.
  induction t as [|c t IH]; intros Ht.
  - change ([] ++ H2_CLOSE ++ r) with (60 :: ([47; 104; 50; 62] ++ r)).
    cbn [heading_text]. rewrite N.eqb_refl.
    change (60 :: [47; 104; 50; 62] ++ r) with (H2_CLOSE ++ r).
    rewrite startswith_self. reflexivity.
  - apply not_elem_of_cons in Ht as [Hc Ht]. cbn [app heading_text].
    destruct (c =? 60) eqn:E; [apply N.eqb_eq in E; congruence|].
    rewrite (IH Ht). reflexivity.
Qed.

Lemma heading_here_cases s : heading_here s = [] \/ exists t, heading_here s = [t].
Proof.
  unfold heading_here. destruct (startswith s H2_OPEN); [|left; reflexivity].
  destruct (heading_text (drop 4 s)); eauto.
Qed.

Lemma heading_here_mono s t r :
  heading_here s = [t] -> heading_here (s ++ r) = [t].
Proof.
  unfold heading_here. destruct (startswith s H2_OPEN) eqn:E; [|discriminate].
  rewrite (startswith_app_mono _ _ r E).
  apply startswith_length in E. cbn in E. rewrite drop_app_le by lia.
  destruct (heading_text (drop 4 s)) as [t'|] eqn:Ht; [|discriminate].
  rewrite (heading_text_mono _ _ r Ht). tauto.
Qed.

Lemma heading_here_intro t r :
  60 ∉ t -> heading_here (H2_OPEN ++ t ++ H2_CLOSE ++ r) = [t].
Proof.
  intros Ht. unfold heading_here. rewrite startswith_self.
  change (drop 4 (H2_OPEN ++ t ++ H2_CLOSE ++ r)) with (t ++ H2_CLOSE ++ r).
  rewrite heading_text_intro by assumption. reflexivity.
Qed.

Lemma scan_h2_cons c s : scan_h2 (c :: s) = heading_here (c :: s) ++ scan_h2 s.
Proof. reflexivity. Qed.

Lemma scan_app_r a s x : x ∈ scan_h2 s -> x ∈ scan_h2 (a ++ s).
Proof.
  intros Hx. induction a as [|c a IH]; [exact Hx|].
  cbn [app]. rewrite scan_h2_cons. apply elem_of_app. right. exact IH.
Qed.

Lemma scan_app_l s r x : x ∈ scan_h2 s -> x ∈ scan_h2 (s ++ r).
Proof.
  induction s as [|c s IH]; [intros Hx; apply elem_of_nil in Hx; destruct Hx|].
  cbn [app]. rewrite !scan_h2_cons. intros [Hx|Hx]%elem_of_app; apply elem_of_app.
  - left. destruct (heading_here_cases (c :: s)) as [E|[t E]]; rewrite E in Hx.
    + apply elem_of_nil in Hx. destruct Hx.
    + change (c :: s ++ r) with ((c :: s) ++ r).
      rewrite (heading_here_mono _ _ r E). exact Hx.
  - right. apply IH, Hx.
Qed.

Lemma scan_intro a t r :
  60 ∉ t -> t ∈ scan_h2 (a ++ H2_OPEN ++ t ++ H2_CLOSE ++ r).
Proof.
  intros Ht. apply scan_app_r.
  change (H2_OPEN ++ t ++ H2_CLOSE ++ r)
    with (60 :: ([104; 50; 62] ++ t ++ H2_CLOSE ++ r)).
  rewrite scan_h2_cons. apply elem_of_app. left.
  change (60 :: [104; 50; 62] ++ t ++ H2_CLOSE ++ r)
    with (H2_OPEN ++ t ++ H2_CLOSE ++ r).
  rewrite heading_here_intro by assumption. left.
Qed.

Lemma body_close_head b :
  startswith b BODY_CLOSE = true -> exists b', b = 60 :: 47 :: 98 :: b'.
Proof.
  destruct b as [|b1 [|b2 [|b3 b]]]; cbn; rewrite ?andb_false_r; try discriminate.
  intros H. repeat (apply andb_prop in H as [?%N.eqb_eq H]). subst. eauto.
Qed.

Ltac eqb_cases :=
  repeat match goal with
  | |- context [?x =? ?y] => destruct (x =? y) eqn:?; cbn [andb]
  end.

(** A tag that is read across the end of [a] cannot run into [</b...]. *)
Lemma startswith_before_body a b' p :
  p = H2_OPEN \/ p = H2_CLOSE ->
  startswith (a ++ 60 :: 47 :: 98 :: b') p = true -> startswith a p = true.
Proof.
  intros [-> | ->];
    destruct a as [|a1 [|a2 [|a3 [|a4 [|a5 a]]]]];
    cbn [app startswith H2_OPEN H2_CLOSE]; rewrite ?startswith_nil;
    eqb_cases; try discriminate; try reflexivity.
Qed.

Lemma heading_text_before_body a b' t :
  heading_text (a ++ 60 :: 47 :: 98 :: b') = Some t -> heading_text a = Some t.
Proof.
  revert t. induction a as [|c a IH]; intros t.
  - cbn [app heading_text startswith H2_CLOSE]. cbn. discriminate.
  - cbn [app heading_text]. destruct (c =? 60).
    + change (c :: a ++ 60 :: 47 :: 98 :: b') with ((c :: a) ++ 60 :: 47 :: 98 :: b').
      destruct (startswith ((c :: a) ++ 60 :: 47 :: 98 :: b') H2_CLOSE) eqn:E;
        [|discriminate].
      apply startswith_before_body in E; [|right; reflexivity].
      rewrite E. tauto.
    + destruct (heading_text (a ++ 60 :: 47 :: 98 :: b')) as [t'|]; [|discriminate].
      rewrite (IH t' eq_refl). tauto.
Qed.

Lemma heading_here_before_body a b' t :
  heading_here (a ++ 60 :: 47 :: 98 :: b') = [t] -> heading_here a = [t].
Proof.
  unfold heading_here.
  destruct (startswith (a ++ 60 :: 47 :: 98 :: b') H2_OPEN) eqn:E; [|discriminate].
  apply startswith_before_body in E; [|left; reflexivity]. rewrite E.
  apply startswith_length in E. cbn in E. rewrite drop_app_le by lia.
  destruct (heading_text (drop 4 a ++ 60 :: 47 :: 98 :: b')) as [t'|] eqn:Ht;
    [|discriminate].
  apply heading_text_before_body in Ht. rewrite Ht. tauto.
Qed.

Lemma scan_sublist_suffix f b : scan_h2 b `sublist_of` scan_h2 (f ++ b).
Proof.
  induction f as [|c f IH]; [reflexivity|].
  cbn [app]. rewrite scan_h2_cons. apply sublist_inserts_l, IH.
Qed.

Lemma scan_sublist_insert a f b' :
  scan_h2 (a ++ 60 :: 47 :: 98 :: b')
    `sublist_of` scan_h2 (a ++ f ++ 60 :: 47 :: 98 :: b').
Proof.
  induction a as [|c a IH]; [exact (scan_sublist_suffix f _)|].
  cbn [app]. rewrite !scan_h2_cons. apply sublist_app; [|exact IH].
  change (c :: a ++ 60 :: 47 :: 98 :: b') with ((c :: a) ++ 60 :: 47 :: 98 :: b').
  destruct (heading_here_cases ((c :: a) ++ 60 :: 47 :: 98 :: b')) as [E|[t E]];
    rewrite E; [apply sublist_nil_l|].
  apply heading_here_before_body in E.
  change (c :: a ++ f ++ 60 :: 47 :: 98 :: b')
    with ((c :: a) ++ f ++ 60 :: 47 :: 98 :: b').
  rewrite (heading_here_mono _ _ _ E). reflexivity.
Qed.

Lemma insert_in_body_spec f s : forall r,
  insert_in_body f s = Some r ->
  exists a b, s = a ++ b /\ r = a ++ f ++ b /\ startswith b BODY_CLOSE = true.
Proof.
  induction s as [|c s IH]; intros r; [discriminate|]. cbn [insert_in_body].
  destruct (insert_in_body f s) as [r'|].
  - intros [= <-]. destruct (IH r' eq_refl) as (a & b & -> & -> & Hb).
    exists (c :: a), b. split_and!; [reflexivity|reflexivity|exact Hb].
  - destruct (startswith (c :: s) BODY_CLOSE) eqn:E; [|discriminate].
    intros [= <-]. exists [], (c :: s). split_and!; [reflexivity|reflexivity|exact E].
Qed.

Lemma unescape_heading x d y :
  is_date_key d = true ->
  unescape (x ++ u "<h2>" ++ d ++ u "</h2>" ++ y)
  = unescape x ++ H2_OPEN ++ d ++ H2_CLOSE ++ unescape y.
Proof.
  intros Hd.
  change (x ++ u "<h2>" ++ d ++ u "</h2>" ++ y)
    with (x ++ 60 :: ([104; 50; 62] ++ d ++ 60 :: ([47; 104; 50; 62] ++ y))).
  rewrite unescape_app_tag, (app_assoc [104; 50; 62] d), unescape_app_tag.
  rewrite (unescape_plain [47; 104; 50; 62])
    by (apply (bool_decide_unpack _); vm_compute; exact I).
  replace (unescape ([104; 50; 62] ++ d)) with ([104; 50; 62] ++ d).
  - rewrite <- !app_assoc. reflexivity.
  - rewrite <- (app_nil_r ([104; 50; 62] ++ d)) at 2.
    rewrite unescape_plain; [rewrite app_nil_r; reflexivity|].
    intros [Hin|Hin]%elem_of_app.
    + revert Hin. apply (bool_decide_unpack _). vm_compute. exact I.
    + revert Hin. apply date_key_no_char; [assumption|lia].
Qed.

Lemma mini_laws : html_laws lib.
Proof.
  split.
  - intros title d summary Hd. cbn [find_all_h2 parse lib].
    unfold HTML_TEMPLATE, section_html.
    match goal with
    | |- context [unescape (?t0 ++ title ++ ?t1 ++ title ++ ?t2 ++ ?sec ++ ?t3)] =>
        replace (t0 ++ title ++ t1 ++ title ++ t2 ++ sec ++ t3)
          with ((t0 ++ title ++ t1 ++ title ++ t2) ++ u "<h2>" ++ d ++ u "</h2>"
                  ++ (([10] ++ u "<pre>" ++ summary ++ u "</pre>") ++ t3))
          by (rewrite <- !app_assoc; reflexivity)
    end.
    rewrite unescape_heading by assumption.
    apply scan_intro, date_key_no_char; [assumption|lia].
  - intros d summary Hd. cbn [find_all_h2 parse lib]. unfold section_html.
    match goal with
    | |- context [unescape ?x] => change x with ([] ++ x)
    end.
    rewrite unescape_heading by assumption.
    apply scan_intro, date_key_no_char; [assumption|lia].
  - intros s f s' Happ. cbn [find_all_h2 parse render body_append lib] in *.
    rewrite unescape_escape.
    apply insert_in_body_spec in Happ as (a & b & -> & -> & Hb).
    apply body_close_head in Hb as [b' ->]. apply scan_sublist_insert.
  - intros s f s' x Happ Hx. cbn [find_all_h2 parse render body_append lib] in *.
    rewrite unescape_escape.
    apply insert_in_body_spec in Happ as (a & b & -> & -> & Hb).
    apply scan_app_r, scan_app_l, Hx.
Qed.

End MiniFacts.

(** ** Idempotence of the pipeline *)

Lemma strip_date_key U d : is_date_key d = true -> strip U d = d.
Proof.
  intros Hd. pose proof (date_key_chars := date_key_chars d Hd).
  assert (forall c, 45 <= c <= 57 -> is_space U c = false) as Hsp.
  { intros c Hc. rewrite is_space_ascii by lia.
    apply orb_false_iff. split; apply andb_false_iff.
    - right. apply N.leb_gt. lia.
    - right. apply N.leb_gt. lia. }
  destruct d as [|c1 [|c2 [|c3 [|c4 [|c5 [|c6 [|c7 [|c8 [|c9 [|c10 [|c11 d]]]]]]]]]]];
    try discriminate.
  apply Forall_cons in date_key_chars as [H1 Hrest].
  assert (45 <= c10 <= 57) as H10.
  { rewrite Forall_forall in Hrest. apply Hrest. do 8 right. left. }
  unfold strip. cbn [lstrip]. rewrite (Hsp c1 H1).
  cbn [rev app lstrip]. rewrite (Hsp c10 H10). reflexivity.
Qed.

Section Idempotence.
Context (U : unicode_db) (H : html_lib) (post : str -> result json).
Context (laws : html_laws H).

Lemma grows_refl fs : grows H fs fs.
Proof. intros p _. split; auto. Qed.

Lemma grows_trans fs1 fs2 fs3 : grows H fs1 fs2 -> grows H fs2 fs3 -> grows H fs1 fs3.
Proof.
  intros H12 H23 p Hp. destruct (H12 p Hp) as [Ha Hb]. destruct (H23 p Hp) as [Hc Hd].
  split; auto.
Qed.

Lemma headings_insert fs path content :
  headings H (<[path := Text content]> fs) path = find_all_h2 H (parse H content).
Proof. unfold headings. rewrite lookup_insert_eq. reflexivity. Qed.

Lemma headings_insert_ne fs path p v :
  p <> path -> headings H (<[path := v]> fs) p = headings H fs p.
Proof. intros Hp. unfold headings. rewrite lookup_insert_ne by congruence. reflexivity. Qed.

Lemma write_section_grows fs title path d summary fs' :
  is_date_key d = true ->
  write_section H fs title path (section_html d summary) = Ok fs' ->
  grows H fs fs' /\ d ∈ headings H fs' path.
Proof.
  intros Hd. unfold write_section. case_bool_decide as Hex.
  - unfold read_text. destruct (fs !! path) as [[content|]|] eqn:Hc; try discriminate.
    cbn [bind].
    destruct (body_append H (parse H content) (parse H (section_html d summary)))
      as [s'|] eqn:Happ; [|discriminate].
    intros [= <-]. split.
    + intros p _. destruct (decide (p = path)) as [->|Hne].
      * rewrite headings_insert. unfold headings at 1. rewrite Hc, lookup_insert_eq.
        split; [|discriminate].
        intros x Hx. eapply elem_of_sublist; [exact Hx|].
        eapply append_keeps; eassumption.
      * rewrite headings_insert_ne, lookup_insert_ne by congruence. auto.
    + rewrite headings_insert. eapply append_adds; [eassumption..|].
      apply section_heading; assumption.
  - intros [= <-]. assert (fs !! path = None) as Hnone.
    { destruct (fs !! path) eqn:E; [|reflexivity]. destruct Hex. eauto. }
    split.
    + intros p _. destruct (decide (p = path)) as [->|Hne].
      * unfold headings at 1. rewrite Hnone, lookup_insert_eq.
        split; [|discriminate]. intros x Hx. apply elem_of_nil in Hx. destruct Hx.
      * rewrite headings_insert_ne, lookup_insert_ne by congruence. auto.
    + rewrite headings_insert. apply template_heading; assumption.
Qed.

Lemma recorded_key fs path d :
  is_date_key d = true -> d ∈ headings H fs path -> d ∈ recorded U H fs path.
Proof.
  intros Hd Hin. unfold recorded. apply list_elem_of_fmap.
  exists d. split; [symmetry; apply strip_date_key, Hd|exact Hin].
Qed.

Lemma recorded_grows fs1 fs2 path x :
  doc_path path -> grows H fs1 fs2 -> x ∈ recorded U H fs1 path -> x ∈ recorded U H fs2 path.
Proof.
  intros Hp Hg. unfold recorded.
  intros (y & -> & Hy)%list_elem_of_fmap. apply list_elem_of_fmap.
  exists y. split; [reflexivity|]. apply (Hg path Hp), Hy.
Qed.

Lemma extract_existing_dates_Ok fs path E :
  extract_existing_dates U H fs path = Ok E ->
  fs !! path <> Some Undecodable /\ E = list_to_set (recorded U H fs path).
Proof.
  unfold extract_existing_dates, recorded, headings, read_text.
  case_bool_decide as Hex.
  - destruct (fs !! path) as [[content|]|]; try discriminate.
    intros [= <-]. split; [discriminate|reflexivity].
  - intros [= <-]. destruct (fs !! path) as [f|]; [destruct Hex; eauto|].
    split; [discriminate|reflexivity].
Qed.

Lemma extract_existing_dates_total fs path :
  fs !! path <> Some Undecodable ->
  extract_existing_dates U H fs path = Ok (list_to_set (recorded U H fs path)).
Proof.
  intros Hne. unfold extract_existing_dates, recorded, headings, read_text.
  case_bool_decide as Hex.
  - destruct (fs !! path) as [[content|]|].
    + reflexivity.
    + congruence.
    + destruct Hex as [? ?]; discriminate.
  - destruct (fs !! path) as [f|]; [destruct Hex; eauto|]. reflexivity.
Qed.

Lemma process_dates_grows title path existing items : forall fs fs',
  doc_path path ->
  (forall item, item ∈ items -> is_date_key item.1 = true) ->
  (forall x, x ∈ existing -> x ∈ recorded U H fs path) ->
  process_dates U H post title path existing fs items = Ok fs' ->
  grows H fs fs' /\ forall item, item ∈ items -> item.1 ∈ recorded U H fs' path.
Proof.
  induction items as [|[d ms] items IH]; intros fs fs' Hp Hkeys Hex; cbn [process_dates].
  - intros [= <-]. split; [apply grows_refl|].
    intros item Hin. apply elem_of_nil in Hin. destruct Hin.
  - destruct (process_date U H post title path existing fs (d, ms)) as [f1|] eqn:E;
      [|discriminate]. cbn [bind]. intros Hrest.
    assert (is_date_key d = true) as Hd by (apply (Hkeys (d, ms)); left).
    assert (grows H fs f1 /\ d ∈ recorded U H f1 path) as [Hg1 Hd1].
    { unfold process_date in E. case_bool_decide as Hin.
      - injection E as <-. split; [apply grows_refl|apply Hex, Hin].
      - destruct (transcript ms) as [full_text|]; [|discriminate]. cbn [bind] in E.
        apply write_section_grows in E as [Hg Hin']; [|assumption].
        split; [exact Hg|apply recorded_key; assumption]. }
    apply IH in Hrest as [Hg2 Hall]; [|assumption| |].
    + split; [eapply grows_trans; eassumption|].
      intros item [->|Hin]%elem_of_cons; [|apply Hall, Hin].
      eapply recorded_grows; eassumption.
    + intros item Hin. apply Hkeys. right. exact Hin.
    + intros x Hx. eapply recorded_grows; [eassumption..|]. apply Hex, Hx.
Qed.

Lemma process_dates_skip title path existing fs items :
  (forall item, item ∈ items -> item.1 ∈ existing) ->
  process_dates U H post title path existing fs items = Ok fs.
Proof.
  induction items as [|[d ms] items IH]; intros Hall; [reflexivity|].
  cbn [process_dates process_date].
  rewrite bool_decide_eq_true_2 by (apply (Hall (d, ms)); left).
  cbn [bind]. apply IH. intros item Hin. apply Hall. right. exact Hin.
Qed.

Lemma next_date_key current_date msg cur :
  (forall d, current_date = Some d -> is_date_key d = true) ->
  next_date U current_date msg = Ok cur ->
  forall d, cur = Some d -> is_date_key d = true.
Proof.
  intros Hc. unfold next_date.
  destruct (is_str (role msg) (u "assistant")); [|intros [= <-]; exact Hc].
  destruct (as_str (text msg) TypeError) as [t|]; [|discriminate]. cbn [bind].
  destruct (opt_truthy (extract_date_from_text U t)); intros [= <-]; [|exact Hc].
  intros d Hd. apply extract_Some_inv in Hd. apply Hd.
Qed.

Lemma segment_from_keys msgs : forall current_date g g',
  (forall d, current_date = Some d -> is_date_key d = true) ->
  (forall d, d ∈ g.*1 -> is_date_key d = true) ->
  segment_from U current_date g msgs = Ok g' ->
  forall d, d ∈ g'.*1 -> is_date_key d = true.
Proof.
  induction msgs as [|m msgs IH]; intros cur g g' Hc Hg; cbn [segment_from].
  - intros [= <-]. exact Hg.
  - destruct (next_date U cur m) as [cur'|] eqn:E; [|discriminate]. cbn [bind].
    pose proof (next_date_key _ _ _ Hc E) as Hc'.
    apply IH; [exact Hc'|].
    intros d. unfold bucket_add. destruct cur' as [d'|]; [|apply Hg].
    destruct (opt_truthy (Some d')); [|apply Hg].
    rewrite keys_group_append. case_bool_decide; [apply Hg|].
    intros [Hd|Hd]%elem_of_app; [apply Hg, Hd|].
    apply list_elem_of_singleton in Hd as ->. apply Hc'. reflexivity.
Qed.

Lemma sorted_items_keys g item : item ∈ sorted_items g -> item.1 ∈ g.*1.
Proof.
  unfold sorted_items. rewrite merge_sort_Permutation.
  intros Hin. apply list_elem_of_fmap. exists item. split; [reflexivity|exact Hin].
Qed.

Lemma process_thread_spec fs thread fs' :
  process_thread U H post fs thread = Ok fs' ->
  grows H fs fs' /\
  forall fs1, grows H fs' fs1 -> process_thread U H post fs1 thread = Ok fs1.
Proof.
  unfold process_thread.
  destruct (thread_title U thread) as [title|]; [|discriminate]. cbn [bind].
  destruct (endswith title FILTER_SUFFIX) eqn:Hscope; cbn [negb];
    [|intros [= <-]; split; [apply grows_refl|reflexivity]].
  assert (doc_path (html_path title)) as Hp by (exists title; auto).
  destruct (extract_existing_dates U H fs (html_path title)) as [E|] eqn:HE;
    [|discriminate]. cbn [bind].
  apply extract_existing_dates_Ok in HE as [Hread ->].
  destruct (read_messages thread) as [msgs|]; [|discriminate]. cbn [bind].
  destruct (segment U msgs) as [g|] eqn:Hseg; [|discriminate]. cbn [bind].
  intros Hrun.
  assert (forall item, item ∈ sorted_items g -> is_date_key item.1 = true) as Hkeys.
  { intros item Hin%sorted_items_keys.
    eapply (segment_from_keys msgs None []); [discriminate| |exact Hseg|exact Hin].
    intros d Hd. apply elem_of_nil in Hd. destruct Hd. }
  apply process_dates_grows in Hrun as [Hg Hall]; [|assumption..|].
  2: { intros x Hx. apply elem_of_list_to_set in Hx. exact Hx. }
  split; [exact Hg|]. intros fs1 Hg1.
  rewrite extract_existing_dates_total.
  - cbn [bind]. apply process_dates_skip. intros item Hin.
    apply elem_of_list_to_set. eapply recorded_grows; [eassumption..|].
    apply Hall, Hin.
  - intros Hun. apply Hread. apply (Hg _ Hp), (Hg1 _ Hp), Hun.
Qed.

Lemma process_threads_spec threads : forall fs fs',
  process_threads U H post fs threads = Ok fs' ->
  grows H fs fs' /\
  forall fs1, grows H fs' fs1 -> process_threads U H post fs1 threads = Ok fs1.
Proof.
  induction threads as [|t threads IH]; intros fs fs'; cbn [process_threads].
  - intros [= <-]. split; [apply grows_refl|reflexivity].
  - destruct (process_thread U H post fs t) as [fa|] eqn:E; [|discriminate].
    cbn [bind]. intros Hrest.
    apply process_thread_spec in E as [Hg1 Hagain].
    apply IH in Hrest as [Hg2 Hagain'].
    split; [eapply grows_trans; eassumption|].
    intros fs1 Hg. rewrite Hagain by (eapply grows_trans; eassumption).
    cbn [bind]. apply Hagain', Hg.
Qed.

End Idempotence.

#[local] Instance name_le_trans : Transitive name_le.
Proof. intros a b c. apply str_leb_trans. Qed.

#[local] Instance name_le_total : Total name_le.
Proof.
  intros a b. unfold name_le, str_leb.
  destruct (str_ltb b a) eqn:Hba; [|left; reflexivity].
  right. apply negb_true_iff.
  destruct (str_ltb a b) eqn:Hab; [|reflexivity].
  pose proof (str_ltb_trans _ _ _ Hab Hba) as Haa.
  rewrite str_ltb_irrefl in Haa. discriminate.
Qed.

#[local] Instance name_le_antisym : AntiSymm (=) name_le.
Proof.
  intros a b Hab Hba. unfold name_le, str_leb in *.
  apply negb_true_iff in Hab, Hba. apply str_ltb_connex; assumption.
Qed.

Lemma output_path_not_index name : OUTPUT_DIR ++ [47] ++ name <> INDEX_HTML.
Proof. discriminate. Qed.

Lemma glob_html_insert_index fs v :
  glob_html (<[INDEX_HTML := v]> fs) = glob_html fs.
Proof.
  unfold glob_html.
  apply (Sorted_unique name_le); try apply (Sorted_merge_sort name_le).
  rewrite !merge_sort_Permutation.
  assert (output_name INDEX_HTML = None) as Hnone by reflexivity.
  destruct (fs !! INDEX_HTML) as [w|] eqn:E.
  - rewrite <- (insert_delete_eq fs).
    rewrite map_to_list_insert by apply lookup_delete_eq.
    rewrite <- (map_to_list_delete fs _ _ E).
    cbn [fmap list_fmap omap list_omap fst]. rewrite Hnone. reflexivity.
  - rewrite map_to_list_insert by assumption.
    cbn [fmap list_fmap omap list_omap fst]. rewrite Hnone. reflexivity.
Qed.

Section IndexAgain.
Context (U : unicode_db) (H : html_lib).

Lemma latest_from_insert_index fs v names : forall latest,
  latest_from U (<[INDEX_HTML := v]> fs) latest names = latest_from U fs latest names.
Proof.
  induction names as [|name names IH]; intros latest; [reflexivity|].
  cbn [latest_from]. unfold latest_step, read_text.
  rewrite lookup_insert_ne by (symmetry; apply output_path_not_index).
  destruct (fs !! (OUTPUT_DIR ++ [47] ++ name)) as [[content|]|]; cbn [bind];
    try reflexivity.
  destruct (findall U h2_date_re content); cbn [bind]; apply IH.
Qed.

Lemma index_sections_insert_index fs v :
  index_sections U H (<[INDEX_HTML := v]> fs) = index_sections U H fs.
Proof.
  unfold index_sections. rewrite glob_html_insert_index.
  apply list_fmap_ext. intros i name _. apply index_entry_local.
  apply lookup_insert_ne. symmetry. apply output_path_not_index.
Qed.

Lemma generate_index_again fs fs1 :
  generate_index_html U H fs = Ok fs1 -> generate_index_html U H fs1 = Ok fs1.
Proof.
  unfold generate_index_html, get_latest_update_date.
  destruct (latest_from U fs [] (glob_html fs)) as [latest|] eqn:E; [|discriminate].
  cbn [bind]. intros [= <-].
  rewrite glob_html_insert_index, latest_from_insert_index, E. cbn [bind].
  rewrite index_sections_insert_index, insert_insert_eq. reflexivity.
Qed.

End IndexAgain.

Lemma startswith_inv s : forall p, startswith s p = true -> exists r, s = p ++ r.
Proof.
  induction s as [|c s IH]; intros [|y p]; cbn [startswith]; try discriminate.
  - exists []. reflexivity.
  - exists (c :: s). reflexivity.
  - intros [->%N.eqb_eq Hs]%andb_prop. destruct (IH _ Hs) as [r ->].
    exists r. reflexivity.
Qed.

Lemma endswith_inv s p : endswith s p = true -> exists r, s = r ++ p.
Proof.
  unfold endswith. intros [r Hr]%startswith_inv. exists (rev r).
  apply (f_equal (@rev N)) in Hr. rewrite rev_involutive, rev_app_distr, rev_involutive in Hr.
  exact Hr.
Qed.

Lemma endswith_app r p : endswith (r ++ p) p = true.
Proof. unfold endswith. rewrite rev_app_distr. apply startswith_self. Qed.

Lemma doc_path_not_index path : doc_path path -> path <> INDEX_HTML.
Proof.
  intros (title & [t ->]%endswith_inv & ->) Heq.
  assert (endswith (html_path (t ++ FILTER_SUFFIX)) (FILTER_SUFFIX ++ u ".html") = true)
    as Hend.
  { unfold html_path, path_join.
    destruct (startswith _ _); [|destruct (_ || _)];
      rewrite <- ?app_assoc, ?app_assoc; rewrite <- (app_assoc _ FILTER_SUFFIX);
      apply endswith_app. }
  rewrite Heq in Hend. vm_compute in Hend. discriminate.
Qed.

Lemma grows_insert_index H fs v : grows H fs (<[INDEX_HTML := v]> fs).
Proof.
  intros p Hp%doc_path_not_index. unfold headings.
  rewrite lookup_insert_ne by congruence. auto.
Qed.



(** ** The document merger *)





(** * Further properties of the program *)

(** ** The date extractor and the keys it writes *)

Section KeyFacts.
Context (U : unicode_db).

Lemma decimal_ascii_digit x : x < 10 -> decimal U (48 + x) = Some x.
Proof.
  intros Hx. rewrite decimal_ascii by lia.
  replace ((48 <=? 48 + x) && (48 + x <=? 57)) with true.
  - f_equal. lia.
  - symmetry. apply andb_true_intro. split; apply N.leb_le; lia.
Qed.

Lemma is_digit_ascii x : x < 10 -> is_digit U (48 + x).
Proof. intros Hx. unfold is_digit. rewrite decimal_ascii_digit by assumption. eauto. Qed.

Lemma two_digits v : v < 100 -> v / 10 < 10 /\ v mod 10 < 10 /\ 10 * (v / 10) + v mod 10 = v.
Proof.
  intros Hv. split_and!.
  - apply N.Div0.div_lt_upper_bound. lia.
  - apply N.mod_lt. lia.
  - symmetry. apply N.div_mod. lia.
Qed.

(** Every key the extractor returns is the key of a year 2000-2099, a month
    and a day below 100. *)
Lemma extract_Some_key text k :
  extract_date_from_text U text = Some k ->
  exists vy vm vd, vy < 100 /\ vm < 100 /\ vd < 100 /\ k = date_key (2000 + vy) vm vd.
Proof.
  intros He. pose proof He as [_ (y & m & d & Hf)]%extract_Some_inv.
  pose proof Hf as (pre & s & rest & _ & Hd & _).
  destruct Hd as (a & b & s1 & s2 & -> & Ha & Hb & _ & _ & Hm & Hdd & _ & _).
  destruct (int_year U a b Ha Hb) as (vy & Hy & Hvy).
  destruct (one_or_two_int U m Hm) as (vm & Hvm & Hvm').
  destruct (one_or_two_int U d Hdd) as (vd & Hvd & Hvd').
  destruct (extract_first_date U _ _ _ _ Hf) as (vy' & vm2 & vd2 & Hy' & Hm' & Hd' & He' & _).
  exists vy, vm, vd. split_and!; try assumption.
  rewrite He in He'. injection He' as ->. congruence.
Qed.

(** X1: formatting then parsing is the identity: the extractor reads a key
    of a year 2000-2099 back as that key. *)
Theorem date_key_round_trip vy vm vd :
  vy < 100 -> vm < 100 -> vd < 100 ->
  extract_date_from_text U (date_key (2000 + vy) vm vd)
  = Some (date_key (2000 + vy) vm vd).
Proof.
  intros Hy Hm Hd.
  destruct (two_digits vy Hy) as (Hy1 & Hy2 & Hy3).
  destruct (two_digits vm Hm) as (Hm1 & Hm2 & Hm3).
  destruct (two_digits vd Hd) as (Hd1 & Hd2 & Hd3).
  assert (first_date U (date_key (2000 + vy) vm vd)
            [50; 48; 48 + vy / 10; 48 + vy mod 10]
            [48 + vm / 10; 48 + vm mod 10] [48 + vd / 10; 48 + vd mod 10]) as Hf.
  { exists [], (date_key (2000 + vy) vm vd), []. split_and!; [reflexivity| |simpl; lia].
    unfold date_key. rewrite fmt0_4, !fmt0_2 by assumption.
    exists (48 + vy / 10), (48 + vy mod 10), 45, 45.
    split_and!; try reflexivity; try (left; reflexivity);
      try (apply is_digit_ascii; assumption).
    - right. do 2 eexists. split_and!; [reflexivity|apply is_digit_ascii; assumption..].
    - right. do 2 eexists. split_and!; [reflexivity|apply is_digit_ascii; assumption..].
    - discriminate. }
  destruct (extract_first_date U _ _ _ _ Hf) as (y' & m' & d' & Hy' & Hm' & Hd' & He & _).
  rewrite He. f_equal.
  unfold int in Hy', Hm', Hd'. cbn [int_acc] in Hy', Hm', Hd'.
  rewrite (decimal_ascii U 50), (decimal_ascii U 48) in Hy' by lia.
  cbn [andb N.leb] in Hy'. simpl in Hy'.
  rewrite !decimal_ascii_digit in Hy', Hm', Hd' by assumption.
  injection Hy' as <-. injection Hm' as <-. injection Hd' as <-.
  f_equal; lia.
Qed.

End KeyFacts.

Lemma date_key_round_trip_witness :
  extract_date_from_text ascii_db (date_key (2000 + 24) 13 45)
  = Some (date_key (2000 + 24) 13 45).
Proof. apply (date_key_round_trip ascii_db 24 13 45); reflexivity. Defined.

(** X2: the extractor is idempotent: a key it returned is read back as
    itself. *)
Theorem extract_date_idempotent U text k :
  extract_date_from_text U text = Some k ->
  extract_date_from_text U k = Some k.
Proof.
  intros (vy & vm & vd & Hy & Hm & Hd & ->)%extract_Some_key.
  apply date_key_round_trip; assumption.
Qed.

Lemma extract_date_idempotent_witness :
  extract_date_from_text ascii_db (u "2024-01-05") = Some (u "2024-01-05").
Proof.
  apply (extract_date_idempotent ascii_db (u "on 2024/1/5 we sold")).
  vm_compute. reflexivity.
Defined.

(** *** The order of keys *)

Lemma two_digit_order a b r :
  a < 100 -> b < 100 ->
  ((48 + a / 10 <? 48 + b / 10) ||
   ((48 + a / 10 =? 48 + b / 10) &&
    ((48 + a mod 10 <? 48 + b mod 10) ||
     ((48 + a mod 10 =? 48 + b mod 10) && r))))
  = ((a <? b) || ((a =? b) && r)).
Proof.
  intros Ha Hb.
  pose proof (below_cases
    (fun a => forallb (fun b => two_digit_check a b true && two_digit_check a b false)
                (N.of_nat <$> seq 0 100)) 100) as Hall.
  specialize (Hall ltac:(vm_compute; reflexivity) a Ha). cbv beta in Hall.
  pose proof (below_cases
    (fun b => two_digit_check a b true && two_digit_check a b false) 100 Hall b Hb)
    as Hab.
  cbv beta in Hab. apply andb_prop in Hab as [Ht Hf].
  unfold two_digit_check in Ht, Hf. apply bool_decide_eq_true in Ht, Hf.
  destruct r; assumption.
Qed.

(** X3: on the keys of the years 2000-2099 the order of strings -- the one
    [sorted] and [max] use -- is the order of (year, month, day). *)
Theorem date_key_order vy vm vd vy' vm' vd' :
  vy < 100 -> vm < 100 -> vd < 100 -> vy' < 100 -> vm' < 100 -> vd' < 100 ->
  str_ltb (date_key (2000 + vy) vm vd) (date_key (2000 + vy') vm' vd')
  = (vy <? vy') || ((vy =? vy') && ((vm <? vm') || ((vm =? vm') && (vd <? vd')))).
Proof.
  intros Hy Hm Hd Hy' Hm' Hd'. unfold date_key.
  rewrite !fmt0_4, !fmt0_2 by assumption. cbn [app str_ltb].
  change (50 <? 50) with false. change (50 =? 50) with true.
  change (48 <? 48) with false. change (48 =? 48) with true.
  change (45 <? 45) with false. change (45 =? 45) with true.
  cbn [orb andb].
  rewrite (two_digit_order vd vd' false), andb_false_r, orb_false_r by assumption.
  rewrite (two_digit_order vm vm') by assumption.
  rewrite (two_digit_order vy vy') by assumption.
  reflexivity.
Qed.

Lemma date_key_order_witness :
  str_ltb (date_key (2000 + 23) 12 31) (date_key (2000 + 24) 1 5)
  = (23 <? 24) || ((23 =? 24) && ((12 <? 1) || ((12 =? 1) && (31 <? 5)))).
Proof. apply (date_key_order 23 12 31 24 1 5); reflexivity. Defined.

(** ** The segmenter *)

Section SegmenterMore.
Context (U : unicode_db).

Lemma next_date_Ok current_date msg cur :
  next_date U current_date msg = Ok cur -> well_typed msg.
Proof.
  unfold next_date, well_typed. intros Hn Hr. rewrite Hr in Hn.
  destruct (text msg); try discriminate. eauto.
Qed.

Lemma next_date_Raise current_date msg e :
  next_date U current_date msg = Raise e -> e = TypeError /\ ~ well_typed msg.
Proof.
  unfold next_date, well_typed.
  destruct (is_str (role msg) (u "assistant")); [|discriminate].
  destruct (text msg) as [| | |t| |]; cbn; try discriminate;
    intros [= <-]; (split; [reflexivity|]); intros Hwt;
    destruct (Hwt eq_refl) as [t Ht]; discriminate.
Qed.

Lemma segment_from_Ok msgs : forall current_date g g',
  segment_from U current_date g msgs = Ok g' -> Forall well_typed msgs.
Proof.
  induction msgs as [|m msgs IH]; intros cur g g'; [constructor|].
  cbn [segment_from]. destruct (next_date U cur m) as [cur'|] eqn:E; [|discriminate].
  cbn [bind]. intros Hs. constructor; [eapply next_date_Ok, E|eapply IH, Hs].
Qed.

Lemma segment_from_Raise msgs : forall current_date g e,
  segment_from U current_date g msgs = Raise e ->
  e = TypeError /\ ~ Forall well_typed msgs.
Proof.
  induction msgs as [|m msgs IH]; intros cur g e; [discriminate|].
  cbn [segment_from]. destruct (next_date U cur m) as [cur'|] eqn:E; cbn [bind].
  - intros [-> Hn]%IH. split; [reflexivity|].
    intros [_ Hall]%Forall_cons. contradiction.
  - intros [= <-]. apply next_date_Raise in E as [-> Hn]. split; [reflexivity|].
    intros [Hm _]%Forall_cons. contradiction.
Qed.

(** X4: the segmenter succeeds exactly when the text of every assistant
    message is a string; otherwise it raises TypeError. *)
Theorem segment_succeeds_iff (msgs : list message) :
  ((exists g, segment U msgs = Ok g) <-> Forall well_typed msgs) /\
  (forall e, segment U msgs = Raise e -> e = TypeError).
Proof.
  split; [split|].
  - intros [g Hg]. eapply segment_from_Ok, Hg.
  - intros Hwt.
    destruct (segment U msgs) as [g|e] eqn:E; [eauto|].
    apply segment_from_Raise in E as [_ Hn]. contradiction.
  - intros e He. apply segment_from_Raise in He. apply He.
Qed.

(** What the loop maintains about the first message of a bucket. *)
Lemma segment_from_heads msgs : forall current_date g g',
  (forall d, current_date = Some d -> d ∈ g.*1) ->
  (forall d ms, (d, ms) ∈ g -> exists m rest, ms = m :: rest /\ detected U m = Some d) ->
  segment_from U current_date g msgs = Ok g' ->
  forall d ms, (d, ms) ∈ g' -> exists m rest, ms = m :: rest /\ detected U m = Some d.
Proof.
  induction msgs as [|m msgs IH]; intros cur g g' Hcur Hheads; cbn [segment_from].
  - intros [= <-]. exact Hheads.
  - destruct (next_date U cur m) as [cur'|] eqn:E; [|discriminate]. cbn [bind].
    pose proof (next_date_Ok _ _ _ E) as Hwt.
    rewrite next_date_detected in E by assumption. injection E as <-.
    apply IH.
    + intros d Hd. unfold bucket_add. rewrite Hd.
      assert (opt_truthy (Some d) = true) as ->.
      { destruct (detected U m) eqn:Hdet.
        - injection Hd as ->. eapply detected_truthy, Hdet.
        - specialize (Hcur d Hd). apply list_elem_of_fmap in Hcur as ([d' ms] & -> & Hin).
          destruct (Hheads _ _ Hin) as (m' & _ & _ & Hm'). eapply detected_truthy, Hm'. }
      rewrite keys_group_append. case_bool_decide; [assumption|].
      apply elem_of_app. right. left.
    + intros d ms Hin. unfold bucket_add in Hin.
      destruct (detected U m) as [d0|] eqn:Hdet.
      * rewrite (detected_truthy U _ _ Hdet) in Hin.
        clear Hcur. induction g as [|[d1 ms1] g IHg]; cbn [group_append] in Hin.
        -- apply list_elem_of_singleton in Hin as [= -> ->]. eauto.
        -- destruct (str_eqb d1 d0) eqn:Heq.
           ++ apply elem_of_cons in Hin as [[= -> ->]|Hin].
              ** destruct (Hheads d1 ms1) as (m' & rest & -> & Hm'); [left|].
                 exists m', (rest ++ [m]). split; [reflexivity|exact Hm'].
              ** apply (Hheads d ms). right. exact Hin.
           ++ apply elem_of_cons in Hin as [[= -> ->]|Hin].
              ** apply (Hheads d1 ms1). left.
              ** apply IHg; [|exact Hin].
                 intros d' ms' Hin'. apply (Hheads d' ms'). right. exact Hin'.
      * destruct cur as [d0|]; [|apply (Hheads d ms), Hin].
        destruct (opt_truthy (Some d0)); [|apply (Hheads d ms), Hin].
        specialize (Hcur d0 eq_refl).
        clear IH. induction g as [|[d1 ms1] g IHg]; cbn [group_append] in Hin.
        -- apply elem_of_nil in Hcur. destruct Hcur.
        -- destruct (str_eqb d1 d0) eqn:Heq.
           ++ apply elem_of_cons in Hin as [[= -> ->]|Hin].
              ** destruct (Hheads d1 ms1) as (m' & rest & -> & Hm'); [left|].
                 exists m', (rest ++ [m]). split; [reflexivity|exact Hm'].
              ** apply (Hheads d ms). right. exact Hin.
           ++ apply elem_of_cons in Hin as [[= -> ->]|Hin].
              ** apply (Hheads d1 ms1). left.
              ** apply IHg; [| |exact Hin].
                 --- cbn in Hcur. apply elem_of_cons in Hcur as [->|Hcur]; [|exact Hcur].
                     apply str_eqb_false in Heq. congruence.
                 --- intros d' ms' Hin'. apply (Hheads d' ms'). right. exact Hin'.
Qed.

(** X5: every bucket begins with an assistant message that introduced the
    date of the bucket. *)
Theorem bucket_starts_with_its_date (msgs : list message) g d ms :
  segment U msgs = Ok g -> (d, ms) ∈ g ->
  exists m rest, ms = m :: rest /\ detected U m = Some d.
Proof.
  intros Hs. eapply (segment_from_heads msgs None []); [discriminate| |exact Hs].
  intros d' ms' Hin. apply elem_of_nil in Hin. destruct Hin.
Qed.

End SegmenterMore.

Lemma bucket_starts_with_its_date_witness :
  exists m rest,
    [assistant (u "as of 2024/1/5 it is flat")] = m :: rest /\
    detected ascii_db m = Some (u "2024-01-05").
Proof.
  eapply (bucket_starts_with_its_date ascii_db scenario _ (u "2024-01-05")
            [assistant (u "as of 2024/1/5 it is flat")]).
  - vm_compute. reflexivity.
  - right. left.
Defined.

(** *** The order in which the dates are processed *)

#[local] Instance key_le_trans : Transitive key_le.
Proof. intros a b c. apply str_leb_trans. Qed.

#[local] Instance key_le_total : Total key_le.
Proof. intros a b. apply (name_le_total a.1 b.1). Qed.

Lemma strictly_sorted (l : groups) :
  StronglySorted key_le l -> NoDup l.*1 ->
  StronglySorted (fun a b => str_ltb a.1 b.1 = true) l.
Proof.
  induction 1 as [|x l Hl IH Hx]; intros Hnd; [constructor|].
  cbn in Hnd. apply NoDup_cons in Hnd as [Hnotin Hnd].
  constructor; [apply IH, Hnd|].
  rewrite Forall_forall in Hx |- *. intros y Hy.
  specialize (Hx y Hy). unfold key_le, str_leb in Hx. apply negb_true_iff in Hx.
  destruct (str_ltb x.1 y.1) eqn:E; [reflexivity|].
  exfalso. apply Hnotin. rewrite (str_ltb_connex _ _ E Hx).
  apply list_elem_of_fmap. eauto.
Qed.

(** X6: the dates of a topic are processed in strictly ascending order of
    their keys, each bucket once. *)
Theorem dates_in_ascending_order U (msgs : list message) g :
  segment U msgs = Ok g ->
  sorted_items g ≡ₚ g /\
  StronglySorted (fun a b => str_ltb a.1 b.1 = true) (sorted_items g).
Proof.
  intros Hs. split; [apply merge_sort_Permutation|].
  pose proof (segment_from_Ok U _ _ _ _ Hs) as Hwt.
  assert (seg_inv U [] []) as Hinit.
  { split_and!; [constructor|reflexivity|].
    intros d. cbn. rewrite elem_of_nil. tauto. }
  destruct (segment_from_spec U msgs [] [] Hwt Hinit) as (g' & Hg' & Hnd & _).
  change (segment U msgs = Ok g') in Hg'. rewrite Hs in Hg'. injection Hg' as <-.
  apply strictly_sorted.
  - apply (StronglySorted_merge_sort key_le).
  - unfold sorted_items. rewrite merge_sort_Permutation. exact Hnd.
Qed.

Lemma dates_in_ascending_order_witness :
  exists g,
    segment ascii_db scenario = Ok g /\
    sorted_items g ≡ₚ g /\
    StronglySorted (fun a b => str_ltb a.1 b.1 = true) (sorted_items g).
Proof.
  eexists. split; [vm_compute; reflexivity|].
  apply (dates_in_ascending_order ascii_db scenario). vm_compute. reflexivity.
Defined.

(** ** The summarizer and the transcript *)

Lemma py_first_item v x : first_item v x -> py_first v = Ok x.
Proof. intros [l ->]. reflexivity. Qed.

(** X7: when the response carries the candidate text, the summary is that
    text without the white space around it. *)
Theorem summarize_returns_candidate U post text response s :
  post (prompt text) = Ok response ->
  has_candidate_text response s ->
  summarize_with_gemini U post text = strip U s.
Proof.
  intros Hp (cands & c0 & content & parts & p0 & H1 & H2 & H3 & H4 & H5 & H6).
  unfold summarize_with_gemini, candidate_text. rewrite Hp. cbn [bind].
  apply py_item_Ok in H1, H3, H4, H6. apply py_first_item in H2, H5.
  rewrite H1. cbn [bind]. rewrite H2. cbn [bind]. rewrite H3. cbn [bind].
  rewrite H4. cbn [bind]. rewrite H5. cbn [bind]. rewrite H6. reflexivity.
Qed.

Lemma summarize_returns_candidate_witness :
  summarize_with_gemini ascii_db Sample.post_ok (u "A: 2024/1/5 flat")
  = strip ascii_db (u " S&P up ").
Proof.
  apply (summarize_returns_candidate ascii_db Sample.post_ok (u "A: 2024/1/5 flat")
           (Sample.reply (u " S&P up ")) (u " S&P up ")).
  - reflexivity.
  - set (p0 := JObj [(u "text", JStr (u " S&P up "))]).
    set (parts := JArr [p0]).
    set (content := JObj [(u "parts", parts)]).
    set (c0 := JObj [(u "content", content)]).
    exists (JArr [c0]), c0, content, parts, p0. unfold field, first_item.
    split_and!;
      first [ exists []; reflexivity | eexists; split; reflexivity ].
Defined.

Lemma transcript_lines_Ok msgs :
  (exists ls, transcript_lines msgs = Ok ls) <-> Forall has_text msgs.
Proof.
  induction msgs as [|m msgs IH]; cbn [transcript_lines].
  - split; [constructor|eauto].
  - rewrite Forall_cons, <- IH. unfold has_text. split.
    + intros [ls Hls]. destruct (text m); try discriminate. cbn in Hls.
      destruct (transcript_lines msgs); [|discriminate]. eauto.
    + intros [[t ->] [ls ->]]. cbn. eauto.
Qed.

Lemma transcript_lines_Raise msgs e :
  transcript_lines msgs = Raise e -> e = TypeError.
Proof.
  induction msgs as [|m msgs IH]; cbn [transcript_lines]; [discriminate|].
  destruct (text m); cbn; try (intros [= <-]; reflexivity).
  destruct (transcript_lines msgs); cbn; [discriminate|].
  intros [= <-]. apply IH. reflexivity.
Qed.

(** X8: the transcript of a bucket is built exactly when the text of every
    message of the bucket is a string; otherwise building it raises
    TypeError. *)
Theorem transcript_succeeds_iff (msgs : list message) :
  ((exists s, transcript msgs = Ok s) <-> Forall has_text msgs) /\
  (forall e, transcript msgs = Raise e -> e = TypeError).
Proof.
  unfold transcript. split; [rewrite <- transcript_lines_Ok; split|].
  - intros [s Hs]. destruct (transcript_lines msgs); [eauto|discriminate].
  - intros [ls ->]. cbn. eauto.
  - intros e. destruct (transcript_lines msgs) eqn:E; [discriminate|].
    cbn. intros [= <-]. eapply transcript_lines_Raise, E.
Qed.



(** ** Paths and the listing of the output directory *)

Lemma html_path_cases title :
  (startswith (title ++ u ".html") [47] = true /\ html_path title = title ++ u ".html") \/
  (startswith (title ++ u ".html") [47] = false /\
   html_path title = OUTPUT_DIR ++ [47] ++ title ++ u ".html").
Proof.
  unfold html_path, path_join.
  destruct (startswith (title ++ u ".html") [47]); [left|right]; split; reflexivity.
Qed.

(** X10: two titles name the same document only when they are equal. *)
Theorem html_path_injective t1 t2 : html_path t1 = html_path t2 -> t1 = t2.
Proof.
  destruct (html_path_cases t1) as [[H1 ->]|[H1 ->]];
    destruct (html_path_cases t2) as [[H2 ->]|[H2 ->]]; intros Heq.
  - apply app_inv_tail in Heq. exact Heq.
  - rewrite Heq in H1. discriminate.
  - rewrite <- Heq in H2. discriminate.
  - apply (app_inv_head OUTPUT_DIR), (app_inv_head [47]), app_inv_tail in Heq.
    exact Heq.
Qed.

Lemma html_path_injective_witness : Sample.title = Sample.title.
Proof. apply (html_path_injective Sample.title Sample.title). reflexivity. Defined.

Lemma output_name_Some path name :
  output_name path = Some name ->
  path = OUTPUT_DIR ++ [47] ++ name /\ (47 ∉ name) /\
  endswith name (u ".html") = true.
Proof.
  unfold output_name.
  destruct (startswith path (OUTPUT_DIR ++ [47])) eqn:E; [|discriminate].
  apply startswith_inv in E as [r ->].
  rewrite drop_app_length.
  destruct (bool_decide (47 ∉ r)) eqn:Hs; [|discriminate].
  destruct (endswith r (u ".html")) eqn:He; [|discriminate].
  intros [= <-]. apply bool_decide_eq_true in Hs.
  split_and!; [rewrite <- app_assoc; reflexivity|assumption|exact He].
Qed.

Lemma output_name_intro name :
  47 ∉ name -> endswith name (u ".html") = true ->
  output_name (OUTPUT_DIR ++ [47] ++ name) = Some name.
Proof.
  intros Hs He. unfold output_name.
  rewrite (app_assoc OUTPUT_DIR [47] name), startswith_self, drop_app_length.
  rewrite bool_decide_eq_true_2 by assumption. rewrite He. reflexivity.
Qed.

Lemma glob_html_spec fs name :
  name ∈ glob_html fs <->
  is_Some (fs !! (OUTPUT_DIR ++ [47] ++ name)) /\
  (47 ∉ name) /\ endswith name (u ".html") = true.
Proof.
  unfold glob_html. rewrite merge_sort_Permutation, list_elem_of_omap. split.
  - intros (p & Hp & Hn). apply output_name_Some in Hn as (-> & Hs & He).
    apply list_elem_of_fmap in Hp as ([p v] & Hpv & Hin). cbn in Hpv. subst p.
    apply elem_of_map_to_list in Hin. split_and!; eauto.
  - intros ([v Hv] & Hs & He). exists (OUTPUT_DIR ++ [47] ++ name). split.
    + apply list_elem_of_fmap. exists (OUTPUT_DIR ++ [47] ++ name, v).
      split; [reflexivity|]. apply elem_of_map_to_list, Hv.
    + apply output_name_intro; assumption.
Qed.

(** X11: the document of a topic is listed in the index exactly when the
    title holds no slash. *)
Theorem document_listed_iff (fs : store) title :
  is_Some (fs !! html_path title) ->
  (title ++ u ".html" ∈ glob_html fs <-> 47 ∉ title).
Proof.
  intros Hdoc. rewrite glob_html_spec. split.
  - intros (_ & Hs & _) Hin. apply Hs, elem_of_app. left. exact Hin.
  - intros Hs.
    assert (47 ∉ title ++ u ".html") as Hs'.
    { intros [Hin|Hin]%elem_of_app; [contradiction|].
      revert Hin. apply (bool_decide_unpack _). vm_compute. exact I. }
    destruct (html_path_cases title) as [[Hst _]|[_ Hp]].
    + exfalso. apply Hs'. destruct (title ++ u ".html") as [|c r]; [discriminate|].
      cbn in Hst. apply andb_prop in Hst as [->%N.eqb_eq _]. left.
    + rewrite Hp in Hdoc. split_and!; [exact Hdoc|exact Hs'|apply endswith_app].
Qed.

Lemma document_listed_iff_witness :
  u "a.html" ∈ glob_html Sample.docs <-> 47 ∉ u "a".
Proof.
  apply (document_listed_iff Sample.docs (u "a")). eexists. vm_compute. reflexivity.
Defined.

Lemma remove_all_skip old s : forall k, (length s <= k)%nat -> remove_all old k s = [].
Proof.
  induction s as [|c s IH]; intros k Hk; [reflexivity|].
  destruct k as [|k]; [simpl in Hk; lia|]. cbn [remove_all].
  apply IH. simpl in Hk. lia.
Qed.

Lemma remove_all_at_end old base :
  old <> [] ->
  (forall i, (i < length base)%nat -> startswith (drop i (base ++ old)) old = false) ->
  remove_all old 0 (base ++ old) = base.
Proof.
  intros Hold. induction base as [|c base IH]; intros Hno.
  - destruct old as [|c old]; [congruence|]. cbn [app remove_all].
    pose proof (startswith_self (c :: old) []) as Hself.
    rewrite app_nil_r in Hself. rewrite Hself.
    apply remove_all_skip. simpl. lia.
  - cbn [app remove_all].
    pose proof (Hno 0%nat ltac:(simpl; lia)) as H0. cbn [drop app] in H0. rewrite H0.
    f_equal. apply IH. intros i Hi. apply (Hno (S i)). simpl. lia.
Qed.

(** X12: when the filter suffix occurs in the title only at its end, the
    title displayed in the index is the title without the suffix. *)
Theorem display_title_strips_suffix base :
  (forall i, (i < length base)%nat ->
     startswith (drop i (base ++ FILTER_SUFFIX)) FILTER_SUFFIX = false) ->
  remove_all FILTER_SUFFIX 0 (stem ((base ++ FILTER_SUFFIX) ++ u ".html")) = base /\
  strip_suffix (base ++ FILTER_SUFFIX) = base.
Proof.
  intros Hno. split.
  - rewrite stem_html by (rewrite length_app; simpl; lia).
    apply remove_all_at_end; [discriminate|exact Hno].
  - unfold strip_suffix. rewrite length_app.
    replace (length base + length FILTER_SUFFIX - length FILTER_SUFFIX)%nat
      with (length base) by lia.
    apply take_app_length.
Qed.

Lemma display_title_strips_suffix_witness :
  remove_all FILTER_SUFFIX 0 (stem ((u "Foo" ++ FILTER_SUFFIX) ++ u ".html")) = u "Foo" /\
  strip_suffix (u "Foo" ++ FILTER_SUFFIX) = u "Foo".
Proof.
  apply (display_title_strips_suffix (u "Foo")).
  intros [|[|[|i]]] Hi; try reflexivity. simpl in Hi. lia.
Defined.

(** ** The index builder *)

Section IndexMore.
Context (U : unicode_db) (H : html_lib).

Lemma latest_from_readable fs names : forall latest r,
  latest_from U fs latest names = Ok r ->
  forall name, name ∈ names ->
    exists content, fs !! (OUTPUT_DIR ++ [47] ++ name) = Some (Text content).
Proof.
  induction names as [|n names IH]; intros latest r Hr name Hin.
  - apply elem_of_nil in Hin. destruct Hin.
  - cbn [latest_from] in Hr.
    destruct (latest_step U fs latest n) as [l1|] eqn:E; [|discriminate].
    cbn [bind] in Hr. apply elem_of_cons in Hin as [->|Hin]; [|eapply IH; eassumption].
    unfold latest_step, read_text in E.
    destruct (fs !! (OUTPUT_DIR ++ [47] ++ n)) as [[content|]|]; try discriminate.
    eauto.
Qed.

Lemma dates_of_perm fs names names' x :
  names ≡ₚ names' ->
  x ∈ mjoin (dates_of U fs <$> names) -> x ∈ mjoin (dates_of U fs <$> names').
Proof.
  intros Hp (l & Hx & (n & -> & Hn)%list_elem_of_fmap)%list_elem_of_join.
  apply list_elem_of_join. exists (dates_of U fs n). split; [exact Hx|].
  apply list_elem_of_fmap. exists n. split; [reflexivity|]. rewrite <- Hp. exact Hn.
Qed.

(** X13: the latest date does not depend on the order in which the
    documents are enumerated. *)
Theorem latest_date_any_order fs names names' r :
  names ≡ₚ names' ->
  latest_from U fs [] names = Ok r ->
  latest_from U fs [] names' = Ok r.
Proof.
  intros Hp Hr.
  destruct (latest_from_total U fs names' []) as [r' Hr'].
  { intros n Hn. eapply latest_from_readable; [exact Hr|]. rewrite Hp. exact Hn. }
  rewrite Hr'. f_equal.
  destruct (latest_from_spec U fs _ _ _ Hr) as (_ & Hub & Hin).
  destruct (latest_from_spec U fs _ _ _ Hr') as (_ & Hub' & Hin').
  assert (str_leb r r' = true) as H1.
  { destruct Hin as [->|Hin]; [apply str_leb_nil|].
    apply Hub'. eapply dates_of_perm; eassumption. }
  assert (str_leb r' r = true) as H2.
  { destruct Hin' as [->|Hin']; [apply str_leb_nil|].
    apply Hub. eapply dates_of_perm; [symmetry|]; eassumption. }
  unfold str_leb in H1, H2. apply negb_true_iff in H1, H2.
  apply str_ltb_connex; assumption.
Qed.

Lemma latest_from_unreadable fs names : forall latest,
  (forall name, name ∈ names -> is_Some (fs !! (OUTPUT_DIR ++ [47] ++ name))) ->
  (exists name, name ∈ names /\ fs !! (OUTPUT_DIR ++ [47] ++ name) = Some Undecodable) ->
  latest_from U fs latest names = Raise UnicodeDecodeError.
Proof.
  induction names as [|n names IH]; intros latest Hex (bad & Hin & Hbad).
  - apply elem_of_nil in Hin. destruct Hin.
  - cbn [latest_from]. unfold latest_step, read_text.
    destruct (fs !! (OUTPUT_DIR ++ [47] ++ n)) as [[content|]|] eqn:E.
    + cbn [bind]. apply elem_of_cons in Hin as [->|Hin]; [congruence|].
      destruct (findall U h2_date_re content); cbn [bind];
        (apply IH; [intros name Hn; apply Hex; right; exact Hn|eauto]).
    + reflexivity.
    + destruct (Hex n) as [? ?]; [left|congruence].
Qed.

(** X14: a document of the output directory that cannot be decoded makes
    the index generation raise, although its entry of the list is built
    with the placeholders: the index page is not written. *)
Theorem unreadable_document_aborts_index fs name :
  name ∈ glob_html fs ->
  fs !! (OUTPUT_DIR ++ [47] ++ name) = Some Undecodable ->
  extract_summary_lines U H fs (OUTPUT_DIR ++ [47] ++ name)
    = (NOT_RECORDED, NOT_RECORDED) /\
  get_latest_update_date U fs = Raise UnicodeDecodeError /\
  generate_index_html U H fs = Raise UnicodeDecodeError.
Proof.
  intros Hin Hbad.
  assert (get_latest_update_date U fs = Raise UnicodeDecodeError) as Hl.
  { apply latest_from_unreadable; [|eauto].
    intros n Hn. apply glob_html_spec in Hn. apply Hn. }
  split_and!; [|exact Hl|].
  - unfold extract_summary_lines, summary_lines_body, read_text. rewrite Hbad.
    reflexivity.
  - unfold generate_index_html. rewrite Hl. reflexivity.
Qed.

(** X15: regenerating the index over its own result changes nothing;
    generating it touches no other file and leaves the listing of the
    output directory as it is: the page is not listed in itself. *)
Theorem index_regeneration fs fs1 :
  generate_index_html U H fs = Ok fs1 ->
  generate_index_html U H fs1 = Ok fs1 /\
  (forall p, p <> INDEX_HTML -> fs1 !! p = fs !! p) /\
  glob_html fs1 = glob_html fs.
Proof.
  intros Hg. split; [eapply generate_index_again, Hg|].
  unfold generate_index_html in Hg.
  destruct (get_latest_update_date U fs); [|discriminate].
  injection Hg as <-. split; [|apply glob_html_insert_index].
  intros p Hp. apply lookup_insert_ne. congruence.
Qed.

End IndexMore.

Lemma latest_date_any_order_witness :
  latest_from ascii_db Sample.docs [] [u "b.html"; u "a.html"] = Ok (u "2024-02-01").
Proof.
  apply (latest_date_any_order ascii_db Sample.docs [u "a.html"; u "b.html"]).
  - apply Permutation_swap.
  - vm_compute. reflexivity.
Defined.

Lemma unreadable_document_aborts_index_witness :
  extract_summary_lines ascii_db Mini.lib Sample.unreadable (OUTPUT_DIR ++ [47] ++ u "bad.html")
    = (NOT_RECORDED, NOT_RECORDED) /\
  get_latest_update_date ascii_db Sample.unreadable = Raise UnicodeDecodeError /\
  generate_index_html ascii_db Mini.lib Sample.unreadable = Raise UnicodeDecodeError.
Proof.
  apply (unreadable_document_aborts_index ascii_db Mini.lib Sample.unreadable (u "bad.html")).
  - apply glob_html_spec. split_and!.
    + eexists. vm_compute. reflexivity.
    + apply (bool_decide_unpack _). vm_compute. exact I.
    + vm_compute. reflexivity.
  - vm_compute. reflexivity.
Defined.

Lemma index_regeneration_witness :
  exists fs1,
    generate_index_html ascii_db Mini.lib Sample.docs = Ok fs1 /\
    generate_index_html ascii_db Mini.lib fs1 = Ok fs1 /\
    (forall p, p <> INDEX_HTML -> fs1 !! p = Sample.docs !! p) /\
    glob_html fs1 = glob_html Sample.docs.
Proof.
  eexists. split; [vm_compute; reflexivity|].
  apply (index_regeneration ascii_db Mini.lib Sample.docs). vm_compute. reflexivity.
Defined.

Lemma date_key_shape U d : is_date_key d = true -> date_shape U d.
Proof.
  intros Hd.
  destruct d as [|c1 [|c2 [|c3 [|c4 [|c5 [|c6 [|c7 [|c8 [|c9 [|c10 [|c11 d]]]]]]]]]]];
    try discriminate.
  unfold is_date_key in Hd. cbn [forallb] in Hd.
  repeat match goal with
  | H : (_ && _) = true |- _ => apply andb_prop in H as [? ?]
  end.
  repeat match goal with
  | H : (_ =? _) = true |- _ => apply N.eqb_eq in H; subst
  end.
  assert (forall c, ascii_digit c = true -> is_digit U c) as Hdig.
  { intros c Hc. unfold ascii_digit in Hc. unfold is_digit.
    assert (c < 128) as Hlt.
    { apply andb_prop in Hc as [_ Hc%N.leb_le]. lia. }
    rewrite (decimal_ascii U c Hlt), Hc. eauto. }
  do 8 eexists. split; [reflexivity|]. repeat constructor; apply Hdig; assumption.
Qed.

(** X16: the first section of a document is seen by the scan of the index
    builder: the page shell and the heading pattern agree, so the "last
    updated" value is not older than the date of a new document. *)
Theorem new_document_is_dated (U : unicode_db) (fs : store) name title d summary latest :
  is_date_key d = true ->
  name ∈ glob_html fs ->
  fs !! (OUTPUT_DIR ++ [47] ++ name)
    = Some (Text (HTML_TEMPLATE title (section_html d summary))) ->
  get_latest_update_date U fs = Ok latest ->
  d ∈ findall U h2_date_re (HTML_TEMPLATE title (section_html d summary)) /\
  str_leb d latest = true.
Proof.
  intros Hd Hname Hdoc Hl.
  assert (d ∈ findall U h2_date_re (HTML_TEMPLATE title (section_html d summary)))
    as Hin.
  { apply findall_h2_dates. split; [apply date_key_shape, Hd|].
    unfold HTML_TEMPLATE, section_html.
    match goal with
    | |- context [?t0 ++ title ++ ?t1 ++ title ++ ?t2 ++ ?sec ++ ?t3] =>
        exists (t0 ++ title ++ t1 ++ title ++ t2),
               (([10] ++ u "<pre>" ++ summary ++ u "</pre>") ++ t3)
    end.
    rewrite <- !app_assoc. reflexivity. }
  split; [exact Hin|].
  destruct (latest_from_spec U fs _ _ _ Hl) as (_ & Hub & _). apply Hub.
  apply list_elem_of_join. exists (dates_of U fs name). split.
  - unfold dates_of, read_text. rewrite Hdoc. exact Hin.
  - apply list_elem_of_fmap. eauto.
Qed.

Lemma new_document_is_dated_witness :
  u "2024-01-01"
    ∈ findall ascii_db h2_date_re (HTML_TEMPLATE Sample.title Sample.first_section) /\
  str_leb (u "2024-01-01") (u "2024-01-01") = true.
Proof.
  apply (new_document_is_dated ascii_db Sample.one_section (Sample.title ++ u ".html")
           Sample.title (u "2024-01-01") (u "S&P up") (u "2024-01-01")).
  - reflexivity.
  - assert (glob_html Sample.one_section = [Sample.title ++ u ".html"]) as ->
      by (vm_compute; reflexivity).
    left.
  - vm_compute. reflexivity.
  - vm_compute. reflexivity.
Defined.

(** ** The run over the threads *)

(** X17: a document that cannot be decoded makes the processing of its
    topic raise, before any message is read. *)
Theorem unreadable_document_aborts_thread (U : unicode_db) (H : html_lib)
    (post : str -> result json) (fs : store) thread title :
  thread_title U thread = Ok title ->
  endswith title FILTER_SUFFIX = true ->
  fs !! html_path title = Some Undecodable ->
  extract_existing_dates U H fs (html_path title) = Raise UnicodeDecodeError /\
  process_thread U H post fs thread = Raise UnicodeDecodeError.
Proof.
  intros Ht Hs Hbad.
  assert (extract_existing_dates U H fs (html_path title) = Raise UnicodeDecodeError)
    as He.
  { unfold extract_existing_dates, read_text. rewrite Hbad.
    rewrite bool_decide_eq_true_2 by eauto. reflexivity. }
  split; [exact He|].
  unfold process_thread. rewrite Ht. cbn [bind]. rewrite Hs. cbn [negb].
  rewrite He. reflexivity.
Qed.

Lemma unreadable_document_aborts_thread_witness :
  extract_existing_dates ascii_db Mini.lib unreadable_topic (html_path Sample.title)
    = Raise UnicodeDecodeError /\
  process_thread ascii_db Mini.lib Sample.post_ok unreadable_topic Sample.thread
    = Raise UnicodeDecodeError.
Proof.
  apply (unreadable_document_aborts_thread ascii_db Mini.lib Sample.post_ok
           unreadable_topic Sample.thread Sample.title).
  - vm_compute. reflexivity.
  - vm_compute. reflexivity.
  - vm_compute. reflexivity.
Defined.

Section RunMore.
Context (U : unicode_db) (H : html_lib).

(** The second run of a thread with another summarizer. *)
Lemma process_thread_again_any post post' fs thread fs' :
  html_laws H ->
  process_thread U H post fs thread = Ok fs' ->
  forall fs1, grows H fs' fs1 -> process_thread U H post' fs1 thread = Ok fs1.
Proof.
  intros laws Hrun fs1 Hg1.
  pose proof (process_thread_spec U H post laws _ _ _ Hrun) as [Hg _].
  unfold process_thread in *.
  destruct (thread_title U thread) as [title|]; [|discriminate]. cbn [bind] in *.
  destruct (endswith title FILTER_SUFFIX) eqn:Hscope; cbn [negb] in *; [|reflexivity].
  assert (doc_path (html_path title)) as Hp by (exists title; auto).
  destruct (extract_existing_dates U H fs (html_path title)) as [E|] eqn:HE;
    [|discriminate]. cbn [bind] in Hrun.
  apply extract_existing_dates_Ok in HE as [Hread ->].
  destruct (read_messages thread) as [msgs|]; [|discriminate]. cbn [bind] in *.
  destruct (segment U msgs) as [g|] eqn:Hseg; [|discriminate]. cbn [bind] in *.
  assert (forall item, item ∈ sorted_items g -> is_date_key item.1 = true) as Hkeys.
  { intros item Hin%sorted_items_keys.
    eapply (segment_from_keys U msgs None []); [discriminate| |exact Hseg|exact Hin].
    intros d Hd. apply elem_of_nil in Hd. destruct Hd. }
  apply (process_dates_grows U H post laws) in Hrun as [_ Hall]; [|assumption..|].
  2: { intros x Hx. apply elem_of_list_to_set in Hx. exact Hx. }
  rewrite extract_existing_dates_total.
  - cbn [bind]. apply process_dates_skip. intros item Hin.
    apply elem_of_list_to_set. eapply recorded_grows; [eassumption..|].
    apply Hall, Hin.
  - intros Hun. apply Hread. apply (Hg _ Hp), (Hg1 _ Hp), Hun.
Qed.

Lemma process_threads_again_any post post' threads : forall fs fs',
  html_laws H ->
  process_threads U H post fs threads = Ok fs' ->
  forall fs1, grows H fs' fs1 -> process_threads U H post' fs1 threads = Ok fs1.
Proof.
  induction threads as [|t threads IH]; intros fs fs' laws; cbn [process_threads].
  - reflexivity.
  - destruct (process_thread U H post fs t) as [fa|] eqn:E; [|discriminate].
    cbn [bind]. intros Hrest fs1 Hg.
    pose proof (process_threads_spec U H post laws _ _ _ Hrest) as [Hg2 _].
    rewrite (process_thread_again_any post post' _ _ _ laws E)
      by (eapply grows_trans; eassumption).
    cbn [bind]. eapply IH; eassumption.
Qed.


End RunMore.


Section RunFrame.
Context (U : unicode_db) (H : html_lib) (post : str -> result json).

Lemma process_thread_outside fs thread fs' :
  process_thread U H post fs thread = Ok fs' ->
  forall p, ~ doc_path p -> fs' !! p = fs !! p.
Proof.
  intros Hrun p Hp.
  destruct (thread_title U thread) as [title|] eqn:Ht;
    [|unfold process_thread in Hrun; rewrite Ht in Hrun; discriminate].
  destruct (endswith title FILTER_SUFFIX) eqn:Hs.
  - eapply process_thread_frame; [exact Ht|exact Hrun|].
    intros ->. apply Hp. exists title. auto.
  - unfold process_thread in Hrun. rewrite Ht in Hrun. cbn [bind] in Hrun.
    rewrite Hs in Hrun. injection Hrun as <-. reflexivity.
Qed.

Lemma process_threads_outside threads : forall fs fs',
  process_threads U H post fs threads = Ok fs' ->
  forall p, ~ doc_path p -> fs' !! p = fs !! p.
Proof.
  induction threads as [|t threads IH]; intros fs fs'; cbn [process_threads].
  - intros [= <-]. reflexivity.
  - destruct (process_thread U H post fs t) as [fa|] eqn:E; [|discriminate].
    cbn [bind]. intros Hrest p Hp.
    rewrite (IH _ _ Hrest p Hp). eapply process_thread_outside; eassumption.
Qed.

Lemma write_section_keeps fs title path section fs' :
  write_section H fs title path section = Ok fs' ->
  forall p, is_Some (fs !! p) -> is_Some (fs' !! p).
Proof.
  intros Hw p Hp. destruct (decide (p = path)) as [->|Hne].
  - unfold write_section in Hw. case_bool_decide.
    + destruct (read_text fs path); [|discriminate]. cbn [bind] in Hw.
      destruct (body_append H _ _); [|discriminate].
      injection Hw as <-. rewrite lookup_insert_eq. eauto.
    + injection Hw as <-. rewrite lookup_insert_eq. eauto.
  - rewrite (write_section_frame H _ _ _ _ _ Hw p Hne). exact Hp.
Qed.

Lemma process_dates_keeps title path existing items : forall fs fs',
  process_dates U H post title path existing fs items = Ok fs' ->
  forall p, is_Some (fs !! p) -> is_Some (fs' !! p).
Proof.
  induction items as [|[d ms] items IH]; intros fs fs'; cbn [process_dates].
  - intros [= <-]. auto.
  - destruct (process_date U H post title path existing fs (d, ms)) as [f1|] eqn:E;
      [|discriminate]. cbn [bind]. intros Hrest p Hp.
    apply (IH _ _ Hrest). unfold process_date in E. case_bool_decide.
    + injection E as <-. exact Hp.
    + destruct (transcript ms); [|discriminate]. cbn [bind] in E.
      eapply write_section_keeps; eassumption.
Qed.

Lemma process_threads_keeps threads : forall fs fs',
  process_threads U H post fs threads = Ok fs' ->
  forall p, is_Some (fs !! p) -> is_Some (fs' !! p).
Proof.
  induction threads as [|t threads IH]; intros fs fs'; cbn [process_threads].
  - intros [= <-]. auto.
  - destruct (process_thread U H post fs t) as [fa|] eqn:E; [|discriminate].
    cbn [bind]. intros Hrest p Hp. apply (IH _ _ Hrest).
    unfold process_thread in E.
    destruct (thread_title U t) as [title|]; [|discriminate]. cbn [bind] in E.
    destruct (negb (endswith title FILTER_SUFFIX)); [injection E as <-; exact Hp|].
    destruct (extract_existing_dates U H fs (html_path title)); [|discriminate].
    cbn [bind] in E. destruct (read_messages t); [|discriminate]. cbn [bind] in E.
    destruct (segment U _); [|discriminate]. cbn [bind] in E.
    eapply process_dates_keeps; eassumption.
Qed.


Context (laws : html_laws H).

Lemma write_section_sublist fs title path section fs' :
  write_section H fs title path section = Ok fs' ->
  forall p, headings H fs p `sublist_of` headings H fs' p.
Proof.
  intros Hw p. destruct (decide (p = path)) as [->|Hne].
  - unfold write_section, read_text in Hw. case_bool_decide as Hex.
    + destruct (fs !! path) as [[content|]|] eqn:Hc; try discriminate.
      cbn [bind] in Hw.
      destruct (body_append H (parse H content) (parse H section)) as [s|] eqn:Ha;
        [|discriminate].
      injection Hw as <-. unfold headings. rewrite Hc, lookup_insert_eq.
      eapply append_keeps; eassumption.
    + unfold headings at 1. destruct (fs !! path) as [f|]; [destruct Hex; eauto|].
      apply sublist_nil_l.
  - unfold headings. rewrite (write_section_frame H _ _ _ _ _ Hw p Hne). reflexivity.
Qed.

Lemma process_dates_sublist title path existing items : forall fs fs',
  process_dates U H post title path existing fs items = Ok fs' ->
  forall p, headings H fs p `sublist_of` headings H fs' p.
Proof.
  induction items as [|[d ms] items IH]; intros fs fs'; cbn [process_dates].
  - intros [= <-]. reflexivity.
  - destruct (process_date U H post title path existing fs (d, ms)) as [f1|] eqn:E;
      [|discriminate]. cbn [bind]. intros Hrest p.
    etransitivity; [|apply (IH _ _ Hrest)].
    unfold process_date in E. case_bool_decide.
    + injection E as <-. reflexivity.
    + destruct (transcript ms); [|discriminate]. cbn [bind] in E.
      eapply write_section_sublist, E.
Qed.

Lemma process_threads_sublist threads : forall fs fs',
  process_threads U H post fs threads = Ok fs' ->
  forall p, headings H fs p `sublist_of` headings H fs' p.
Proof.
  induction threads as [|t threads IH]; intros fs fs'; cbn [process_threads].
  - intros [= <-]. reflexivity.
  - destruct (process_thread U H post fs t) as [fa|] eqn:E; [|discriminate].
    cbn [bind]. intros Hrest p. etransitivity; [|apply (IH _ _ Hrest)].
    unfold process_thread in E.
    destruct (thread_title U t) as [title|]; [|discriminate]. cbn [bind] in E.
    destruct (negb (endswith title FILTER_SUFFIX)); [injection E as <-; reflexivity|].
    destruct (extract_existing_dates U H fs (html_path title)); [|discriminate].
    cbn [bind] in E. destruct (read_messages t); [|discriminate]. cbn [bind] in E.
    destruct (segment U _); [|discriminate]. cbn [bind] in E.
    eapply process_dates_sublist, E.
Qed.


End RunFrame.



(** ** The labelled lines of a summary *)

Section LabelledLine.
Context (U : unicode_db).

Lemma rmatch_lits {A} (l : str) (k : kont (A:=A)) caps s :
  rmatch U (lits l) k caps (l ++ s) = k caps s.
Proof.
  induction l as [|c l IH]; [reflexivity|].
  cbn [lits app rmatch]. rewrite N.eqb_refl. exact IH.
Qed.

Lemma rmatch_lits_none {A} (l : str) (k : kont (A:=A)) caps s :
  startswith s l = false -> rmatch U (lits l) k caps s = None.
Proof.
  revert s. induction l as [|c l IH]; intros s Hs.
  - rewrite startswith_nil in Hs. discriminate.
  - cbn [lits rmatch]. destruct s as [|x s]; [reflexivity|].
    cbn [startswith] in Hs. destruct (x =? c); [|reflexivity].
    apply IH. exact Hs.
Qed.

Lemma occurs_false x s :
  occurs x s = false -> forall i, startswith (drop i s) x = false.
Proof.
  induction s as [|c s IH]; cbn [occurs]; intros [H1 H2]%orb_false_iff i.
  - destruct i; exact H1.
  - destruct i as [|i]; [exact H1|]. cbn [drop]. apply IH, H2.
Qed.

(** X21: when a label does not occur in the text of a summary, its line is
    the placeholder. *)
Theorem labelled_line_absent label text :
  occurs label text = false -> labelled_line U label text = NOT_RECORDED.
Proof.
  intros Hno. unfold labelled_line. rewrite search_None; [reflexivity|].
  intros i. unfold match_here, labelled_line_re. cbn [seqs rmatch].
  apply rmatch_lits_none, occurs_false, Hno.
Qed.

Section Found.
Context (c : N) (line' rest : str).
Context (Hc10 : c <> 10) (Hcsp : is_space U c = false).
Context (Hline : Forall (fun x => x <> 10) line').
Context (Hrest : rest = [] \/ exists r, rest = 10 :: r).

Local Abbreviation line := (c :: line').
Local Abbreviation after := (line_tail (c :: line') rest).
Local Abbreviation expected := (found_line (c :: line') rest).
Local Abbreviation k5 := (line_kont U).
Local Abbreviation k4 := (blank_kont U).
Local Abbreviation settled := (settles U (c :: line') rest).

Lemma star_dot_line (k : kont (A:=list str * str)) caps l x :
  Forall (fun y => y <> 10) l ->
  k caps rest = Some x ->
  star U true Dot k caps (l ++ rest) = Some x.
Proof.
  intros Hl Hk. induction Hl as [|y l Hy Hl IH]; cbn [app].
  - destruct Hrest as [->|[r ->]]; [exact Hk|].
    cbn [star cls_mem]. exact Hk.
  - cbn [star cls_mem]. apply N.eqb_neq in Hy. rewrite Hy. cbn [negb].
    rewrite IH. reflexivity.
Qed.

Lemma group_takes_line caps :
  rmatch U (Group (Seq (Cls Dot) (Star true Dot)))
    (rmatch U Eps (fun caps s => Some (caps, s))) caps (line ++ rest)
  = expected caps.
Proof.
  cbn [rmatch app cls_mem].
  pose proof Hc10 as Hc%N.eqb_neq. rewrite Hc. cbn [negb].
  apply star_dot_line; [exact Hline|].
  unfold found_line.
  change (c :: line' ++ rest) with ((c :: line') ++ rest).
  rewrite (take_prefix (c :: line') rest). reflexivity.
Qed.

Lemma k5_tail caps : k5 caps after = expected caps.
Proof. unfold line_kont, line_tail. cbn [rmatch]. apply group_takes_line. Qed.

Lemma k5_other caps y s : y <> 10 -> k5 caps (y :: s) = None.
Proof. intros Hy%N.eqb_neq. unfold line_kont. cbn [rmatch]. rewrite Hy. reflexivity. Qed.

Lemma is_space_10 : is_space U 10 = true.
Proof. rewrite is_space_ascii by lia. reflexivity. Qed.

Lemma k4_spaces caps w :
  Forall (fun x => is_space U x = true) w -> k4 caps (w ++ after) = expected caps.
Proof.
  intros Hw. induction Hw as [|x w Hx Hw IH]; cbn [app].
  - unfold blank_kont, line_tail at 1. cbn [star cls_mem]. rewrite is_space_10.
    cbn [app star cls_mem]. rewrite Hcsp.
    rewrite (k5_other caps c _ Hc10). apply k5_tail.
  - unfold blank_kont. cbn [star cls_mem]. rewrite Hx. fold (blank_kont U).
    rewrite IH. reflexivity.
Qed.

Lemma k4_settles : settled k4.
Proof.
  split; [|intros caps w; apply k4_spaces].
  intros caps y w Hy Hw. induction Hy as [|x y Hx Hy IH]; cbn [app].
  - left. apply k4_spaces, Hw.
  - unfold blank_kont. cbn [star cls_mem]. fold (blank_kont U).
    destruct (is_space U x); [|right; apply k5_other, Hx].
    destruct IH as [-> | ->]; [left; reflexivity|right; apply k5_other, Hx].
Qed.

Lemma opt_settles l k :
  10 ∉ l -> settled k -> settled (rmatch U (Opt (Cls (OneOf l))) k).
Proof.
  intros Hl [Hk1 Hk2].
  assert (forall caps w, Forall (fun x => is_space U x = true) w ->
            rmatch U (Opt (Cls (OneOf l))) k caps (w ++ after) = expected caps) as H2.
  { intros caps w Hw. cbn [rmatch]. destruct Hw as [|x w Hx Hw]; cbn [app].
    - unfold line_tail at 1. cbn [cls_mem]. rewrite bool_decide_eq_false_2 by assumption.
      apply (Hk2 caps []). constructor.
    - cbn [cls_mem]. case_bool_decide.
      + rewrite (Hk2 caps w Hw). reflexivity.
      + apply (Hk2 caps (x :: w)). constructor; assumption. }
  split; [|exact H2].
  intros caps y w Hy Hw. destruct Hy as [|x y Hx Hy]; cbn [app].
  - left. apply H2, Hw.
  - cbn [rmatch cls_mem]. case_bool_decide.
    + destruct (Hk1 caps y w Hy Hw) as [-> | ->]; [left; reflexivity|].
      apply (Hk1 caps (x :: y) w); [constructor; assumption|assumption].
    + apply (Hk1 caps (x :: y) w); [constructor; assumption|assumption].
Qed.

Lemma lazy_star_settles k caps y w :
  settled k ->
  Forall (fun x => x <> 10) y -> Forall (fun x => is_space U x = true) w ->
  star U false Dot k caps (y ++ w ++ after) = expected caps.
Proof.
  intros [Hk1 Hk2] Hy Hw. induction Hy as [|x y Hx Hy IH]; cbn [app].
  - pose proof (Hk2 caps w Hw) as Hk.
    destruct (w ++ after) as [|z s] eqn:E; cbn [star]; [exact Hk|].
    destruct (cls_mem U Dot z); rewrite Hk; reflexivity.
  - cbn [star cls_mem]. apply N.eqb_neq in Hx as Hx'. rewrite Hx'. cbn [negb].
    destruct (Hk1 caps (x :: y) w) as [Hk|Hk];
      [constructor; assumption|assumption| |]; cbn [app] in Hk; rewrite Hk.
    + reflexivity.
    + exact IH.
Qed.

Lemma opt_then_lazy_star l k caps y w :
  10 ∉ l -> settled k ->
  Forall (fun x => x <> 10) y -> Forall (fun x => is_space U x = true) w ->
  rmatch U (Opt (Cls (OneOf l))) (star U false Dot k) caps (y ++ w ++ after)
  = expected caps.
Proof.
  intros Hl Hs Hy Hw. cbn [rmatch].
  destruct Hy as [|z y Hz Hy]; cbn [app].
  - pose proof (lazy_star_settles k caps [] w Hs (Forall_nil_2 _) Hw) as Hk.
    cbn [app] in Hk. rewrite Hk.
    destruct Hw as [|h w Hh Hw]; cbn [app].
    + unfold line_tail at 1. cbn [cls_mem].
      rewrite bool_decide_eq_false_2 by assumption. reflexivity.
    + pose proof (lazy_star_settles k caps [] w Hs (Forall_nil_2 _) Hw) as Hk'.
      cbn [app] in Hk'. rewrite Hk'.
      destruct (cls_mem U (OneOf l) h); reflexivity.
  - destruct (cls_mem U (OneOf l) z).
    + rewrite (lazy_star_settles k caps y w Hs Hy Hw). reflexivity.
    + apply (lazy_star_settles k caps (z :: y) w Hs); [|exact Hw].
      constructor; assumption.
Qed.

Lemma labelled_match label x w :
  Forall (fun y => y <> 10) x -> Forall (fun y => is_space U y = true) w ->
  match_here U (labelled_line_re label) (label ++ x ++ w ++ after)
  = Some ([line], rest).
Proof.
  intros Hx Hw. unfold match_here, labelled_line_re.
  change (rmatch U (seqs _) _ [] ?s) with
    (rmatch U (lits label)
       (rmatch U (Opt (Cls (OneOf [65288; 40; 65288])))
          (star U false Dot
             (rmatch U (Opt (Cls (OneOf [41; 65289; 65289])))
                (rmatch U (Opt (Cls (OneOf [65306; 58]))) k4)))) [] s).
  rewrite rmatch_lits.
  apply (opt_then_lazy_star _ _ [] x w); [| |exact Hx|exact Hw].
  - apply (bool_decide_unpack _). vm_compute. exact I.
  - apply opt_settles; [apply (bool_decide_unpack _); vm_compute; exact I|].
    apply opt_settles; [apply (bool_decide_unpack _); vm_compute; exact I|].
    apply k4_settles.
Qed.

End Found.

(** X22: the line of a label is the first line with text after the label
    line: whatever ends the label line (no newline in [x]) and whatever
    blank lines follow ([w]), the result is the next line [c :: line'],
    stripped. *)
Theorem labelled_line_found label pre x w c line' rest :
  (forall i, (i < length pre)%nat ->
     startswith (drop i (pre ++ label ++ x ++ w ++ 10 :: (c :: line') ++ rest)) label
     = false) ->
  Forall (fun y => y <> 10) x ->
  Forall (fun y => is_space U y = true) w ->
  c <> 10 -> is_space U c = false ->
  Forall (fun y => y <> 10) line' ->
  rest = [] \/ (exists r, rest = 10 :: r) ->
  labelled_line U label (pre ++ label ++ x ++ w ++ 10 :: (c :: line') ++ rest)
  = strip U (c :: line').
Proof.
  intros Hpre Hx Hw Hc Hcs Hl Hr. unfold labelled_line.
  change (10 :: (c :: line') ++ rest) with (line_tail (c :: line') rest) in *.
  rewrite search_skip.
  - rewrite (search_here U _ _ _
               (labelled_match c line' rest Hc Hcs Hl Hr label x w Hx Hw)).
    reflexivity.
  - intros i Hi. unfold match_here, labelled_line_re. cbn [seqs rmatch].
    apply rmatch_lits_none, Hpre, Hi.
Qed.

End LabelledLine.

Lemma labelled_line_absent_witness :
  labelled_line ascii_db TIMING_ADVICE (LATEST_STATUS ++ u ":" ++ [10] ++ u "flat")
  = NOT_RECORDED.
Proof.
  apply (labelled_line_absent ascii_db TIMING_ADVICE). vm_compute. reflexivity.
Defined.

Lemma labelled_line_found_witness :
  labelled_line ascii_db LATEST_STATUS
    (u "A: " ++ LATEST_STATUS ++ u "(40):" ++ [32; 10; 32] ++
     10 :: (117 :: u "p 3% ") ++ 10 :: u "next")
  = strip ascii_db (117 :: u "p 3% ").
Proof.
  apply (labelled_line_found ascii_db LATEST_STATUS (u "A: ") (u "(40):")
           [32; 10; 32] 117 (u "p 3% ") (10 :: u "next")).
  - intros i Hi. cbn [length u] in Hi.
    destruct i as [|[|[|i]]]; [vm_compute; reflexivity ..|].
    exfalso. cbn in Hi. lia.
  - vm_compute. repeat constructor; discriminate.
  - vm_compute. repeat constructor.
  - discriminate.
  - reflexivity.
  - vm_compute. repeat constructor; discriminate.
  - right. eexists. reflexivity.
Defined.
